(** * batch.py: topic-tree flattening, batch partitioning and dispatch

    A shallow embedding of [src/raspberrypi.com/products/batch.py].

    Python values are modelled the way the script handles them:
    - [str] is a sequence of Unicode code points ([list N]);
    - [int] is [Z] (Python integers are unbounded), [//] and [%] are
      [Z.div] and [Z.modulo] (both round towards minus infinity);
    - the document returned by [json.load] is a [json] value, objects being
      association lists from keys to values;
    - an uncaught exception is a value of [exn], carried by [result];
    - the crawler started by [subprocess.run] is an external process: it is
      a parameter which transforms a state of the outside world and returns
      an exit code.

    A run starts from the parsed command line and the loaded document:
    [argparse] and [json.load] are not part of the model, nor are the
    limits of the interpreter (recursion depth, memory). *)

From Stdlib Require Import Ascii String.
From Stdlib Require Import List ZArith NArith Arith Bool Lia.
From Stdlib Require Import Sorted Permutation.
Import ListNotations.

Set Implicit Arguments.

(** ** Python strings *)

Module PyStr.

Definition char := N.
Definition str := list char.

(** A string literal of the source, read as code points. *)
Definition lit (s : string) : str := map N_of_ascii (list_ascii_of_string s).
Arguments lit s%_string : simpl never.

Definition char_eqb : char -> char -> bool := N.eqb.

Fixpoint eqb (a b : str) : bool :=
  match a, b with
  | [], [] => true
  | x :: a', y :: b' => char_eqb x y && eqb a' b'
  | _, _ => false
  end.

(** [s.startswith(p)] *)
Fixpoint startswith (p s : str) : bool :=
  match p, s with
  | [], _ => true
  | x :: p', y :: s' => char_eqb x y && startswith p' s'
  | _ :: _, [] => false
  end.

(** [old in s]: [old] occurs in [s] as a substring. *)
Fixpoint contains (old s : str) : bool :=
  startswith old s ||
  match s with
  | [] => false
  | _ :: s' => contains old s'
  end.

(** [sep.join(parts)] *)
Fixpoint join (sep : str) (parts : list str) : str :=
  match parts with
  | [] => []
  | [p] => p
  | p :: ps => p ++ sep ++ join sep ps
  end.

(** [s.replace(old, new)] for a non-empty [old]: the occurrences of [old]
    are found from left to right and do not overlap.  [skip] counts the
    characters of a match that are still to be dropped. *)
Fixpoint replace_from (old new : str) (skip : nat) (s : str) : str :=
  match s with
  | [] => []
  | c :: s' =>
      match skip with
      | S k => replace_from old new k s'
      | O =>
          if startswith old s
          then new ++ replace_from old new (length old - 1) s'
          else c :: replace_from old new 0 s'
      end
  end.

(** [s.replace(old, new)]; with an empty [old], Python puts [new] before
    every character and at the end. *)
Definition replace (old new s : str) : str :=
  match old with
  | [] => new ++ flat_map (fun c => c :: new) s
  | _ :: _ => replace_from old new 0 s
  end.

(** [s.split(sep)] for a non-empty [sep]: [cur] is the part being read, in
    reverse; the result always has at least one part. *)
Fixpoint split_from (sep : str) (skip : nat) (cur : str) (s : str) : list str :=
  match s with
  | [] => [rev cur]
  | c :: s' =>
      match skip with
      | S k => split_from sep k cur s'
      | O =>
          if startswith sep s
          then rev cur :: split_from sep (length sep - 1) [] s'
          else split_from sep 0 (c :: cur) s'
      end
  end.

Definition split (sep s : str) : list str := split_from sep 0 [] s.

(** Comparison of strings: lexicographic on code points, a proper prefix
    being smaller. *)
Fixpoint leb (a b : str) : bool :=
  match a, b with
  | [], _ => true
  | _ :: _, [] => false
  | x :: a', y :: b' =>
      if N.ltb x y then true
      else if N.ltb y x then false
      else leb a' b'
  end.

End PyStr.

Import PyStr.

(** ** Python list slicing *)

Section Slice.
Variable A : Type.

(** A slice bound, as [PySlice_AdjustIndices] clips it for step 1: a
    negative bound counts from the end, and the result lies in
    [0 .. len]. *)
Definition adjust_index (len i : Z) : Z :=
  let i' := if (i <? 0)%Z then (i + len)%Z else i in
  if (i' <? 0)%Z then 0%Z
  else if (len <? i')%Z then len
  else i'.

(** [l[lo:hi]] *)
Definition slice (l : list A) (lo hi : Z) : list A :=
  let len := Z.of_nat (length l) in
  let a := adjust_index len lo in
  let b := adjust_index len hi in
  firstn (Z.to_nat (b - a)) (skipn (Z.to_nat a) l).
End Slice.

(** ** Exceptions *)

Inductive exn : Type :=
| ValidationError
| KeyError (key : str)
| TypeError
| ValueError
| ZeroDivisionError
| CalledProcessError (returncode : Z).

Inductive result (A : Type) : Type :=
| Ok (a : A)
| Raise (e : exn).
Arguments Ok {A} a.
Arguments Raise {A} e.

Definition bind {A B} (r : result A) (k : A -> result B) : result B :=
  match r with
  | Ok a => k a
  | Raise e => Raise e
  end.

Notation "x <- r ;; k" := (bind r (fun x => k))
  (at level 61, r at next level, right associativity).

(** ** The partitioner *)

(** [len(topics) // group_count + (len(topics) % group_count > 0)] *)
Definition batch_size (T group_count : Z) : result Z :=
  if (group_count =? 0)%Z then Raise ZeroDivisionError
  else Ok (T / group_count + (if (0 <? T mod group_count)%Z then 1 else 0))%Z.

(** [topics[group_index * batch_size : (group_index + 1) * batch_size]] *)
Definition current_group {A} (topics : list A) (group_index group_count : Z)
  : result (list A) :=
  bs <- batch_size (Z.of_nat (length topics)) group_count ;;
  Ok (slice topics (group_index * bs) ((group_index + 1) * bs)).

(** ** The structure document *)

(** What [json.load] returns: [None], [bool], [int], [float] (kept as the
    pair mantissa, exponent), [str], [list] and [dict].  A [dict] is the
    list of its items, in insertion order. *)
#[local] Unset Elimination Schemes.
Inductive json : Type :=
| JNull
| JBool (b : bool)
| JInt (n : Z)
| JFloat (m e : Z)
| JStr (s : str)
| JArr (items : list json)
| JObj (fields : list (str * json)).
#[local] Set Elimination Schemes.

(** The items of a [dict]; the keys of a Python [dict] are distinct, and
    nothing below depends on it. *)
Definition dict := list (str * json).

(** [k in d] *)
Fixpoint has_key (k : str) (d : dict) : bool :=
  match d with
  | [] => false
  | (k', _) :: d' => PyStr.eqb k k' || has_key k d'
  end.

(** [d.get(k)] *)
Fixpoint lookup (k : str) (d : dict) : option json :=
  match d with
  | [] => None
  | (k', v) :: d' => if PyStr.eqb k k' then Some v else lookup k d'
  end.

(** [d[k]] *)
Definition getitem (k : str) (d : dict) : result json :=
  match lookup k d with
  | Some v => Ok v
  | None => Raise (KeyError k)
  end.

(** *** STRUCTURE_SCHEMA

    [validate(instance=data, schema=STRUCTURE_SCHEMA)] is called without a
    format checker, so ["format": "uri"] is an annotation only, as are
    ["title"] and ["description"]. *)

(** [{"type": "string", "minLength": 1}], the schema of ["name"], of
    ["url"] and of the items of ["breadcrumbs"]. *)
Definition valid_nonempty_string (j : json) : bool :=
  match j with
  | JStr s => (1 <=? length s)%nat
  | _ => false
  end.

(** [{"type": "array", "items": {"type": "string", "minLength": 1},
      "minItems": 1}] *)
Definition valid_breadcrumbs (j : json) : bool :=
  match j with
  | JArr items => forallb valid_nonempty_string items && (1 <=? length items)%nat
  | _ => false
  end.

(** [#/definitions/topic]: an object with the required keys ["name"],
    ["sub_topics"] and ["url"]; every item of the object is checked against
    the schema of its key, and a key without a schema is refused
    (["additionalProperties": False]). *)
Fixpoint valid_topic (j : json) : bool :=
  match j with
  | JObj d =>
      has_key (lit "name") d && has_key (lit "sub_topics") d
      && has_key (lit "url") d
      && (fix properties (fs : dict) : bool :=
            match fs with
            | [] => true
            | (k, v) :: fs' =>
                (if PyStr.eqb k (lit "name") then valid_nonempty_string v
                 else if PyStr.eqb k (lit "sub_topics") then
                   match v with
                   | JArr subs => forallb valid_topic subs
                   | _ => false
                   end
                 else if PyStr.eqb k (lit "url") then valid_nonempty_string v
                 else if PyStr.eqb k (lit "breadcrumbs") then valid_breadcrumbs v
                 else false)
                && properties fs'
            end) d
  | _ => false
  end.

(** The check of one item of a topic object, as [valid_topic] makes it. *)
Definition valid_property (k : str) (v : json) : bool :=
  if PyStr.eqb k (lit "name") then valid_nonempty_string v
  else if PyStr.eqb k (lit "sub_topics") then
    match v with
    | JArr subs => forallb valid_topic subs
    | _ => false
    end
  else if PyStr.eqb k (lit "url") then valid_nonempty_string v
  else if PyStr.eqb k (lit "breadcrumbs") then valid_breadcrumbs v
  else false.

(** [STRUCTURE_SCHEMA], as the predicate it stands for; its root is
    [{"type": "array", "minItems": 1,
      "items": {"$ref": "#/definitions/topic"}}]. *)
Definition STRUCTURE_SCHEMA (data : json) : bool :=
  match data with
  | JArr roots => (1 <=? length roots)%nat && forallb valid_topic roots
  | _ => false
  end.

(** [validate(instance, schema)] *)
Definition validate (instance : json) (schema : json -> bool) : result unit :=
  if schema instance then Ok tt else Raise ValidationError.

(** ** The flattener *)

(** An element of [topics]: the dict [{"url": ..., "path": ...}]. *)
Record WorkItem : Type := mkWorkItem { url : str; path : str }.

Definition slash : str := lit "/".
Definition sentinel : str := lit "_slash_".

(** [t.replace("/", "_slash_")] *)
Definition escape (t : str) : str := replace slash sentinel t.

(** ["/".join([t.replace("/", "_slash_") for t in breadcrumbs])] *)
Definition relative_path (breadcrumbs : list str) : str :=
  join slash (map escape breadcrumbs).

(** The script reads ["url"] and the breadcrumbs as strings, and
    ["breadcrumbs"], ["sub_topics"] and the document as lists.  A value of
    another type is refused by the schema before the flattener runs;
    [TypeError] stands for what Python raises on it otherwise. *)
Definition as_str (j : json) : result str :=
  match j with
  | JStr s => Ok s
  | _ => Raise TypeError
  end.

Fixpoint as_str_list (items : list json) : result (list str) :=
  match items with
  | [] => Ok []
  | j :: items' =>
      s <- as_str j ;;
      rest <- as_str_list items' ;;
      Ok (s :: rest)
  end.

Definition as_list (j : json) : result (list json) :=
  match j with
  | JArr items => Ok items
  | _ => Raise TypeError
  end.

Section FlatMap.
Variables (A B : Type) (f : A -> result (list B)).

(** [[y for x in xs for y in f(x)]]: the first exception ends the
    comprehension. *)
Fixpoint flat_map_result (xs : list A) : result (list B) :=
  match xs with
  | [] => Ok []
  | x :: xs' =>
      ys <- f x ;;
      rest <- flat_map_result xs' ;;
      Ok (ys ++ rest)
  end.
End FlatMap.

(** [get_all_topics(topic)]: the item of [topic] itself, then the items of
    its sub-topics, in order.  The local [sub_topics] is
    [topic["sub_topics"]] followed by the comprehension over it, written
    as a search through the items of the dict so that the recursive calls
    are on parts of [topic] (see [get_all_topics_eq]). *)
Fixpoint get_all_topics (topic : json) : result (list WorkItem) :=
  match topic with
  | JObj d =>
      u <- getitem (lit "url") d ;;
      u <- as_str u ;;
      bc <- getitem (lit "breadcrumbs") d ;;
      bc <- as_list bc ;;
      bc <- as_str_list bc ;;
      descendants <-
        (fix sub_topics (fs : dict) : result (list WorkItem) :=
           match fs with
           | [] => Raise (KeyError (lit "sub_topics"))
           | (k, v) :: fs' =>
               if PyStr.eqb (lit "sub_topics") k then
                 match v with
                 | JArr subs => flat_map_result get_all_topics subs
                 | _ => Raise TypeError
                 end
               else sub_topics fs'
           end) d ;;
      Ok (mkWorkItem u (relative_path bc) :: descendants)
  | _ => Raise TypeError
  end.

(** [[descendant for topic in data for descendant in get_all_topics(topic)]] *)
Definition flatten (data : json) : result (list WorkItem) :=
  roots <- as_list data ;;
  flat_map_result get_all_topics roots.

(** *** [sorted] *)

Section Sorted.
Variables (A : Type) (key : A -> str).

Fixpoint insert_by_key (x : A) (l : list A) : list A :=
  match l with
  | [] => [x]
  | y :: l' =>
      if PyStr.leb (key x) (key y) then x :: l
      else y :: insert_by_key x l'
  end.

(** [sorted(l, key=key)]: the stable sort of [l] by [key], computed by
    insertion from the right. *)
Fixpoint sorted (l : list A) : list A :=
  match l with
  | [] => []
  | x :: l' => insert_by_key x (sorted l')
  end.
End Sorted.

(** [topics = sorted(topics, key=lambda x: x["path"])] *)
Definition sorted_topics (data : json) : result (list WorkItem) :=
  topics <- flatten data ;;
  Ok (sorted path topics).

(** ** The process and its environment *)

(** What the script does not define itself: the world the crawler
    processes act on, [subprocess.run(["python", "/app/crawl.py", "--url",
    url, "--out", out])] as a transition of that world which yields the
    exit code of the process, and the built-in [int] on strings ([None]
    when it raises [ValueError]). *)
Record Runtime : Type := mkRuntime {
  World : Type;
  crawl : World -> str -> str -> World * Z;
  py_int : str -> option Z
}.

(** The parsed command line; [--structure_file] is represented by the
    document loaded from it. *)
Record Args : Type := mkArgs {
  topic_range : str;
  group_index : Z;
  group_count : Z;
  output_dir : str
}.

(** The lines written by [print]. *)
Inductive line : Type :=
| Filtering (first last : Z)
| Found (count : nat)
| Processing (p : str).

Inductive event : Type :=
| Print (l : line)
| Run (u out : str).

(** [os.path.join(a, b)] of [posixpath]. *)
Definition endswith_slash (a : str) : bool :=
  match rev a with
  | c :: _ => char_eqb c 47%N
  | [] => false
  end.

Definition path_join (a b : str) : str :=
  if startswith slash b then b
  else if match a with [] => true | _ => endswith_slash a end then a ++ b
  else a ++ slash ++ b.

Section Process.
Variable R : Runtime.

(** The state of a run: the outside world and what has been printed and
    started so far, latest first. *)
Record state : Type := mkState { world : World R; events : list event }.

Definition M (A : Type) : Type := state -> state * result A.

Definition ret {A} (a : A) : M A := fun s => (s, Ok a).

Definition lift {A} (r : result A) : M A := fun s => (s, r).

Definition mbind {A B} (m : M A) (k : A -> M B) : M B :=
  fun s =>
    match m s with
    | (s', Ok a) => k a s'
    | (s', Raise e) => (s', Raise e)
    end.

#[local] Notation "x <~ m ;; k" := (mbind m (fun x => k))
  (at level 61, m at next level, right associativity).
#[local] Notation "m ;; k" := (mbind m (fun _ => k))
  (at level 61, right associativity).

Definition print (l : line) : M unit :=
  fun s => (mkState (world s) (Print l :: events s), Ok tt).

(** [subprocess.run([...], check=True)]: a non-zero exit code raises
    [CalledProcessError]. *)
Definition run_crawl (u out : str) : M unit :=
  fun s =>
    let (w', code) := crawl R (world s) u out in
    (mkState w' (Run u out :: events s),
     if (code =? 0)%Z then Ok tt else Raise (CalledProcessError code)).

(** [for x in xs: body(x)] *)
Fixpoint for_each {A} (body : A -> M unit) (xs : list A) : M unit :=
  match xs with
  | [] => ret tt
  | x :: xs' => body x ;; for_each body xs'
  end.

(** [start, end = map(int, args.topic_range.split("-"))]: [int] fails on
    a part, or the unpacking finds fewer or more than two values; each of
    them raises [ValueError]. *)
Definition parse_range (r : str) : result (Z * Z) :=
  match split (lit "-") r with
  | [a; b] =>
      match py_int R a, py_int R b with
      | Some first, Some last => Ok (first, last)
      | _, _ => Raise ValueError
      end
  | _ => Raise ValueError
  end.

(** The loop over [current_group]. *)
Definition dispatch (out_dir : str) (group : list WorkItem) : M unit :=
  for_each
    (fun topic =>
       print (Processing (path topic)) ;;
       run_crawl (url topic) (path_join out_dir (path topic)))
    group.

(** [main()], from the parsed arguments and the loaded document. *)
Definition main (args : Args) (data : json) : M unit :=
  lift (validate data STRUCTURE_SCHEMA) ;;
  topics <~ lift (sorted_topics data) ;;
  (if PyStr.eqb (topic_range args) (lit "*") then ret tt
   else
     se <~ lift (parse_range (topic_range args)) ;;
     print (Filtering (fst se) (snd se))) ;;
  print (Found (length topics)) ;;
  group <~
    lift (current_group topics (group_index args) (group_count args)) ;;
  dispatch (output_dir args) group.

(** A run from a given world: the final world, the events in the order
    they happened, and how [main] ended. *)
Record outcome : Type := mkOutcome {
  final_world : World R;
  trace : list event;
  ending : result unit
}.

Definition run (args : Args) (data : json) (w : World R) : outcome :=
  let (s, r) := main args data (mkState w []) in
  mkOutcome (world s) (rev (events s)) r.

(** The crawler processes started, in order. *)
Definition calls (t : list event) : list (str * str) :=
  flat_map (fun e => match e with Run u o => [(u, o)] | Print _ => [] end) t.

(** The exit status of the interpreter: 1 after an uncaught exception. *)
Definition exit_status (r : result unit) : Z :=
  match r with
  | Ok _ => 0%Z
  | Raise _ => 1%Z
  end.
End Process.

(** ** Notions of the specification *)

(** *** The forest of topics *)

(** The children of a node: the items of its ["sub_topics"]. *)
Definition sub_topics_of (t : json) : list json :=
  match t with
  | JObj d =>
      match lookup (lit "sub_topics") d with
      | Some (JArr subs) => subs
      | _ => []
      end
  | _ => []
  end.

Section TopicFold.
Variables (B : Type) (node : json -> list B -> B).

(** Bottom-up evaluation of a tree of topics: [node t rs] combines the
    node [t] with the results [rs] of its children. *)
Fixpoint topic_fold (t : json) : B :=
  node t
    match t with
    | JObj d =>
        (fix children (fs : dict) : list B :=
           match fs with
           | [] => []
           | (k, v) :: fs' =>
               if PyStr.eqb (lit "sub_topics") k then
                 match v with
                 | JArr subs => map topic_fold subs
                 | _ => []
                 end
               else children fs'
           end) d
    | _ => []
    end.
End TopicFold.

(** The number of nodes of a tree, and of a forest. *)
Definition node_count : json -> nat :=
  topic_fold (fun _ ns => S (list_sum ns)).

Definition forest_count (roots : list json) : nat :=
  list_sum (map node_count roots).

(** The nodes of a tree in pre-order: the root, then the nodes of each
    child in turn. *)
Definition preorder : json -> list json :=
  topic_fold (fun t ls => t :: concat ls).

Definition preorder_forest (roots : list json) : list json :=
  flat_map preorder roots.

(** The position of a node: the index of its root in the document, then
    the index of the child taken at each level. *)
Definition address := list nat.

Fixpoint subtree (t : json) (a : address) : option json :=
  match a with
  | [] => Some t
  | i :: a' =>
      match nth_error (sub_topics_of t) i with
      | Some c => subtree c a'
      | None => None
      end
  end.

Definition node_at (roots : list json) (a : address) : option json :=
  match a with
  | [] => None
  | i :: a' =>
      match nth_error roots i with
      | Some t => subtree t a'
      | None => None
      end
  end.

(** Document order of positions: a parent before its descendants, and a
    node with all its descendants before its next sibling. *)
Fixpoint addr_ltb (a b : address) : bool :=
  match a, b with
  | [], [] => false
  | [], _ :: _ => true
  | _ :: _, [] => false
  | i :: a', j :: b' => (i <? j)%nat || ((i =? j)%nat && addr_ltb a' b')
  end.

Definition addr_lt (a b : address) : Prop := addr_ltb a b = true.

(** The positions below the [n]-th, [n+1]-th, ... sibling, given the
    positions inside each of them. *)
Fixpoint number_from (n : nat) (rs : list (list address)) : list address :=
  match rs with
  | [] => []
  | r :: rs' => map (cons n) r ++ number_from (S n) rs'
  end.

(** The positions inside a tree, relative to its root, and the positions
    of a forest. *)
Definition addresses_in : json -> list address :=
  topic_fold (fun _ rs => [] :: number_from 0 rs).

Definition addresses (roots : list json) : list address :=
  number_from 0 (map addresses_in roots).

(** *** The work item of a node *)

Definition has_breadcrumbs (t : json) : bool :=
  match t with
  | JObj d => has_key (lit "breadcrumbs") d
  | _ => false
  end.

Definition topic_url (t : json) : option str :=
  match t with
  | JObj d =>
      match lookup (lit "url") d with
      | Some (JStr u) => Some u
      | _ => None
      end
  | _ => None
  end.

Fixpoint strings_of (items : list json) : option (list str) :=
  match items with
  | [] => Some []
  | JStr s :: items' =>
      match strings_of items' with
      | Some ss => Some (s :: ss)
      | None => None
      end
  | _ :: _ => None
  end.

Definition topic_breadcrumbs (t : json) : option (list str) :=
  match t with
  | JObj d =>
      match lookup (lit "breadcrumbs") d with
      | Some (JArr items) => strings_of items
      | _ => None
      end
  | _ => None
  end.

(** The WorkItem of the data model: the url of the topic, and the path
    derived from its breadcrumbs. *)
Definition work_item (t : json) : option WorkItem :=
  match topic_url t, topic_breadcrumbs t with
  | Some u, Some bc => Some (mkWorkItem u (relative_path bc))
  | _, _ => None
  end.

(** What [get_all_topics] returns on a valid topic [t]: the work items of
    the nodes of [t] in pre-order when every node has breadcrumbs, and the
    [KeyError] of the missing key otherwise. *)
Definition flattened (r : result (list WorkItem)) (nodes : list json) : Prop :=
  if forallb has_breadcrumbs nodes
  then exists items, r = Ok items /\ map Some items = map work_item nodes
  else r = Raise (KeyError (lit "breadcrumbs")).

(** [positions] lists the positions of the nodes selected by [at_] in
    document order, each position once, and [nodes] are the nodes at these
    positions. *)
Definition document_order (at_ : address -> option json)
  (positions : list address) (nodes : list json) : Prop :=
  StronglySorted addr_lt positions
  /\ (forall a, In a positions <-> at_ a <> None)
  /\ map at_ positions = map Some nodes.

(** The position in [t :: ts] of the node at position [a] of [ts]. *)
Definition shift (a : address) : address :=
  match a with
  | [] => []
  | i :: a' => S i :: a'
  end.

(** Reversing the substitution of the sentinel. *)
Definition restore (s : str) : str := replace sentinel slash s.

(** The other text which the substitution turns into text that holds the
    sentinel: the beginning of the sentinel followed by a slash. *)
Definition sentinel_then_slash : str := lit "_slash/".

(** The sentinel is an underscore, [slash_word], and an underscore. *)
Definition slash_word : str := lit "slash".

(** *** Order and stability *)

Definition path_le (a b : WorkItem) : Prop := PyStr.leb (path a) (path b) = true.

(** The items of [l] whose path is [p], in the order of [l]. *)
Definition with_path (p : str) (l : list WorkItem) : list WorkItem :=
  filter (fun x => PyStr.eqb (path x) p) l.

(** *** Batches *)

(** The batches of all the groups, [group_index = 0 .. group_count - 1]. *)
Fixpoint all_results {A} (rs : list (result A)) : result (list A) :=
  match rs with
  | [] => Ok []
  | r :: rs' =>
      a <- r ;;
      rest <- all_results rs' ;;
      Ok (a :: rest)
  end.

Definition all_groups {A} (topics : list A) (group_count : Z)
  : result (list (list A)) :=
  all_results
    (map (fun i => current_group topics (Z.of_nat i) group_count)
         (seq 0 (Z.to_nat group_count))).

(** *** Runs *)

Section Dispatching.
Variable R : Runtime.

(** The crawler call made for a work item. *)
Definition call_of (out_dir : str) (t : WorkItem) : str * str :=
  (url t, path_join out_dir (path t)).

(** The world after the crawler ran for each item of [items] in turn. *)
Definition crawl_all (out_dir : str) (w : World R) (items : list WorkItem)
  : World R :=
  fold_left
    (fun w t => fst (crawl R w (url t) (path_join out_dir (path t))))
    items w.

(** The exit code of the crawler for [t] in world [w]. *)
Definition exit_code (out_dir : str) (w : World R) (t : WorkItem) : Z :=
  snd (crawl R w (url t) (path_join out_dir (path t))).

(** Every crawler of [items], run in turn from [w], exits with 0. *)
Fixpoint all_succeed (out_dir : str) (w : World R) (items : list WorkItem)
  : bool :=
  match items with
  | [] => true
  | t :: items' =>
      (exit_code out_dir w t =? 0)%Z
      && all_succeed out_dir (crawl_all out_dir w [t]) items'
  end.

(** A well-formed [--topic_range]: the literal ["*"], or two integer
    literals separated by a dash. *)
Definition well_formed_range (r : str) : bool :=
  PyStr.eqb r (lit "*")
  || match split (lit "-") r with
     | [a; b] =>
         match py_int R a, py_int R b with
         | Some _, Some _ => true
         | _, _ => false
         end
     | _ => false
     end.

(** What a run prints before it selects its batch. *)
Definition preamble (r : str) (topics : list WorkItem) : list event :=
  (if PyStr.eqb r (lit "*") then []
   else match parse_range R r with
        | Ok (first, last) => [Print (Filtering first last)]
        | Raise _ => []
        end)
  ++ [Print (Found (length topics))].

(** The events of a dispatch in which every crawler is started. *)
Definition dispatch_events (out_dir : str) (items : list WorkItem)
  : list event :=
  flat_map
    (fun t => [Print (Processing (path t));
               Run (url t) (path_join out_dir (path t))])
    items.

Definition is_filtering (e : event) : bool :=
  match e with
  | Print (Filtering _ _) => true
  | _ => false
  end.
End Dispatching.

(** *** A concrete runtime

    The decimal fragment of the built-in [int] on ASCII text: optional
    surrounding blanks, an optional sign, then digits, single underscores
    being allowed between digits. *)

Definition is_blank (c : char) : bool :=
  ((9 <=? c) && (c <=? 13) || (28 <=? c) && (c <=? 32))%N.

Fixpoint lstrip (s : str) : str :=
  match s with
  | c :: s' => if is_blank c then lstrip s' else s
  | [] => []
  end.

Definition strip (s : str) : str := rev (lstrip (rev (lstrip s))).

Definition digit_of (c : char) : option Z :=
  if ((48 <=? c) && (c <=? 57))%N then Some (Z.of_N c - 48)%Z else None.

(** [acc] is the value of the digits read so far; [after_digit] tells
    whether the previous character was a digit. *)
Fixpoint digits_from (acc : Z) (after_digit : bool) (s : str) : option Z :=
  match s with
  | [] => if after_digit then Some acc else None
  | c :: s' =>
      match digit_of c with
      | Some d => digits_from (10 * acc + d)%Z true s'
      | None =>
          if char_eqb c 95%N && after_digit then digits_from acc false s'
          else None
      end
  end.

Definition ascii_int (s : str) : option Z :=
  match strip s with
  | 43%N :: s' => digits_from 0 false s'
  | 45%N :: s' => option_map Z.opp (digits_from 0 false s')
  | s' => digits_from 0 false s'
  end.

(** A runtime whose world records the crawler calls made, and whose
    crawler fails, with exit code 1, exactly on the urls of [failing]. *)
Definition recording (failing : list str) : Runtime :=
  mkRuntime
    (fun (w : list (str * str)) u out =>
       (w ++ [(u, out)],
        if existsb (PyStr.eqb u) failing then 1%Z else 0%Z))
    ascii_int.

(** *** Sample documents *)

Definition topic (name url : string) (breadcrumbs : list string)
  (subs : list json) : json :=
  JObj [(lit "name", JStr (lit name));
        (lit "sub_topics", JArr subs);
        (lit "breadcrumbs", JArr (map (fun b => JStr (lit b)) breadcrumbs));
        (lit "url", JStr (lit url))].
Arguments topic (name url)%_string breadcrumbs subs.

Definition topic_without_breadcrumbs (name url : string) (subs : list json)
  : json :=
  JObj [(lit "name", JStr (lit name));
        (lit "sub_topics", JArr subs);
        (lit "url", JStr (lit url))].
Arguments topic_without_breadcrumbs (name url)%_string subs.

(** The example of the specification. *)
Definition example_document : json :=
  JArr [topic "A" "u1" ["products"; "A"]%string
          [topic "B" "u2" ["products"; "A"; "B"]%string []]].

(** ** get_structure.py: the structure document as it is written

    The part of [get_structure.py] that builds the topics.  The page is
    given as what the selectors find in it; the browser session and the
    parsing of the HTML are outside, and so are the exceptions they raise
    (which the script catches).  The script writes the structure with
    [json.dump]; the document [batch.py] loads is taken to be that
    structure. *)

(** What the script takes from its libraries: [urljoin] of
    [urllib.parse], and the method [strip] of [str]. *)
Record Library : Type := mkLibrary {
  urljoin : str -> str -> str;
  str_strip : str -> str
}.

(** An element selected by ["a.c-card--link"], as [extract_related_products]
    reads it: [get("href")], and the text of the tags found by
    [find("span", class_="c-product-card__heading")] and
    [find("h2", class_="c-type-display-large")], [None] when there is no
    such attribute or tag. *)
Record ProductElement : Type := mkProductElement {
  href : option str;
  card_heading : option str;
  large_heading : option str
}.

(** A section selected by ["div.o-container section"]: the text of the
    tag found by [find("h2")], and the product elements selected in it. *)
Record TopicElement : Type := mkTopicElement {
  h2 : option str;
  products_elements : list ProductElement
}.

(** The truth value of a string: [False] when it is empty. *)
Definition truthy (s : str) : bool :=
  match s with
  | [] => false
  | _ :: _ => true
  end.

(** The dict [{"name": ..., "sub_topics": ..., "breadcrumbs": ...,
    "url": ...}], which both functions build with the keys in this
    order. *)
Definition topic_dict (name : str) (sub_topics : list json)
  (breadcrumbs : list str) (topic_url : str) : json :=
  JObj [(lit "name", JStr name);
        (lit "sub_topics", JArr sub_topics);
        (lit "breadcrumbs", JArr (map JStr breadcrumbs));
        (lit "url", JStr topic_url)].

(** [product_element.find("span", ...)], and [product_element.find("h2",
    ...)] when the first finds nothing. *)
Definition product_heading (e : ProductElement) : option str :=
  match card_heading e with
  | Some text => Some text
  | None => large_heading e
  end.

Section GetStructure.
Variable L : Library.

(** [extract_related_products(topic_url, topic_name, soup_topic)], from
    [products_elements] on: an element without [href], or with an empty
    one, and an element without heading are skipped. *)
Fixpoint extract_related_products (topic_url topic_name : str)
  (elements : list ProductElement) : list json :=
  match elements with
  | [] => []
  | product_element :: elements' =>
      let all_topics :=
        extract_related_products topic_url topic_name elements' in
      match href product_element with
      | None => all_topics
      | Some product_url =>
          if truthy product_url then
            match product_heading product_element with
            | None => all_topics
            | Some text =>
                let product_name := str_strip L text in
                let absolute_url := urljoin L topic_url product_url in
                topic_dict product_name []
                  (if truthy topic_name
                   then [lit "products"; topic_name; product_name]
                   else [lit "products"; product_name])
                  absolute_url
                :: all_topics
            end
          else all_topics
      end
  end.

(** The body of the loop of [get_topic_structure]: the dict appended for
    the section [topic]. *)
Definition main_topic (page_url : str) (topic : TopicElement) : json :=
  let topic_name :=
    match h2 topic with
    | Some text => str_strip L text
    | None => []
    end in
  topic_dict
    (if truthy topic_name then topic_name else lit "top products")
    (extract_related_products page_url topic_name (products_elements topic))
    (if truthy topic_name then [lit "products"; topic_name]
     else [lit "products"])
    page_url.

(** [get_topic_structure(url)], from [main_topics] on.  Without HTML the
    script returns the empty list, as for a page without sections. *)
Definition get_topic_structure (page_url : str)
  (main_topics : list TopicElement) : list json :=
  map (main_topic page_url) main_topics.
End GetStructure.

(** ** More notions for the properties of the scripts *)

(** The paths of the ["Processing topic"] lines of a trace, in order. *)
Definition processed (t : list event) : list str :=
  flat_map
    (fun e => match e with Print (Processing p) => [p] | _ => [] end) t.

(** The keys a topic may have. *)
Definition topic_keys : list str :=
  [lit "name"; lit "sub_topics"; lit "url"; lit "breadcrumbs"].

(** The product elements of which [extract_related_products] makes a
    topic, with the [href] and the heading text it reads. *)
Definition kept (e : ProductElement) : option (str * str) :=
  match href e, product_heading e with
  | Some product_url, Some text =>
      if truthy product_url then Some (product_url, text) else None
  | _, _ => None
  end.

(** The [href] and heading text of the product elements of a section of
    which a topic is made. *)
Definition kept_products (topic : TopicElement) : list (str * str) :=
  flat_map (fun e => match kept e with Some x => [x] | None => [] end)
    (products_elements topic).

(** The dash that separates the bounds of a topic range. *)
Definition dash : char := 45%N.

(** The topic that [extract_related_products] makes of a product element
    with the [href] and the heading text [x]. *)
Definition product_topic (L : Library) (topic_url topic_name : str)
  (x : str * str) : json :=
  let product_name := str_strip L (snd x) in
  topic_dict product_name []
    (if truthy topic_name
     then [lit "products"; topic_name; product_name]
     else [lit "products"; product_name])
    (urljoin L topic_url (fst x)).

(** The name of a section, as [get_topic_structure] reads it. *)
Definition section_name (L : Library) (topic : TopicElement) : str :=
  match h2 topic with
  | Some text => str_strip L text
  | None => []
  end.

(** * Properties *)

Unset Implicit Arguments.

(** Literals stay folded while a goal is simplified. *)
Opaque lit.

(** ** The partitioner *)

Section SliceFacts.
Variable A : Type.
Implicit Types l : list A.

Lemma firstn_add (a b : nat) l :
  firstn (a + b) l = firstn a l ++ firstn b (skipn a l).
Proof.
  revert l; induction a as [|a IH]; intros l; simpl.
  - reflexivity.
  - destruct l as [|x l]; simpl.
    + now rewrite firstn_nil.
    + now rewrite IH.
Qed.

Lemma firstn_clip (n : nat) l :
  firstn (Nat.min n (length l)) l = firstn n l.
Proof.
  destruct (Nat.le_ge_cases n (length l)) as [H|H].
  - now rewrite Nat.min_l.
  - rewrite Nat.min_r by assumption.
    now rewrite !firstn_all2 by lia.
Qed.

Lemma adjust_index_nonneg (len i : Z) :
  (0 <= len)%Z -> (0 <= i)%Z -> adjust_index len i = Z.min i len.
Proof.
  intros Hlen Hi. unfold adjust_index.
  destruct (Z.ltb_spec i 0); [lia|].
  destruct (Z.ltb_spec i 0); [lia|].
  destruct (Z.ltb_spec len i); lia.
Qed.

(** A slice with bounds that are not negative is the plain sub-list: the
    clipping to the length changes nothing. *)
Lemma slice_nonneg l (lo hi : Z) :
  (0 <= lo)%Z -> (0 <= hi)%Z ->
  slice l lo hi = firstn (Z.to_nat hi - Z.to_nat lo) (skipn (Z.to_nat lo) l).
Proof.
  intros Hlo Hhi. unfold slice.
  rewrite !adjust_index_nonneg by lia.
  destruct (Z.le_gt_cases lo (Z.of_nat (length l))) as [Hl|Hl].
  - rewrite (Z.min_l lo) by assumption.
    rewrite <- (firstn_clip (Z.to_nat hi - Z.to_nat lo)).
    f_equal. rewrite length_skipn. lia.
  - rewrite (Z.min_r lo) by lia. rewrite Nat2Z.id, skipn_all.
    rewrite (skipn_all2 (n := Z.to_nat lo) l) by lia.
    now rewrite !firstn_nil.
Qed.

Lemma concat_chunks (b n : nat) l :
  concat (map (fun i => firstn b (skipn (i * b) l)) (seq 0 n))
  = firstn (n * b) l.
Proof.
  induction n as [|n IH].
  - reflexivity.
  - rewrite seq_S, map_app, concat_app, IH. simpl.
    rewrite app_nil_r, (Nat.add_comm b), firstn_add. reflexivity.
Qed.
End SliceFacts.

(** The batch size is the ceiling of [T / group_count]. *)
Lemma batch_size_ceiling (T gc : Z) :
  (0 <= T)%Z -> (1 <= gc)%Z ->
  exists b, batch_size T gc = Ok b
            /\ (gc * (b - 1) < T <= gc * b)%Z
            /\ b = ((T + gc - 1) / gc)%Z.
Proof.
  intros HT Hgc. unfold batch_size.
  destruct (Z.eqb_spec gc 0); [lia|].
  eexists; split; [reflexivity|].
  pose proof (Z_div_mod_eq_full T gc) as E.
  pose proof (Z.mod_pos_bound T gc ltac:(lia)) as B.
  destruct (Z.ltb_spec 0 (T mod gc)) as [Hm|Hm].
  - split; [nia|].
    apply Z.div_unique with (r := (T mod gc - 1)%Z); [lia|nia].
  - assert (T mod gc = 0)%Z as Z0 by lia.
    split; [nia|].
    apply Z.div_unique with (r := (gc - 1)%Z); [lia|nia].
Qed.

Lemma all_results_ok {A B} (g : B -> A) (l : list B) :
  all_results (map (fun i => Ok (g i)) l) = Ok (map g l).
Proof.
  induction l as [|x l IH]; simpl; [reflexivity|].
  now rewrite IH.
Qed.

(** The batch of a group whose index is not negative, as a sub-list. *)
Lemma current_group_chunk {A} (topics : list A) (i gc b : Z) :
  batch_size (Z.of_nat (length topics)) gc = Ok b ->
  (0 <= b)%Z -> (0 <= i)%Z ->
  current_group topics i gc
  = Ok (firstn (Z.to_nat b) (skipn (Z.to_nat i * Z.to_nat b) topics)).
Proof.
  intros Hb Hb0 Hi. unfold current_group. rewrite Hb. simpl.
  rewrite slice_nonneg by nia.
  do 2 f_equal.
  - rewrite !Z2Nat.inj_mul, Z2Nat.inj_add by lia.
    change (Z.to_nat 1) with 1%nat. lia.
  - rewrite Z2Nat.inj_mul by lia. reflexivity.
Qed.

(** C1. Partition completeness: for a group count of at least 1, the
    batches of the groups [0 .. group_count - 1], concatenated in this
    order, are the whole sequence: nothing is left out, repeated or moved.
    A sequence without items gives empty batches only, and one group
    receives the whole sequence. *)
Theorem partition_complete {A} (topics : list A) (group_count : Z) :
  (1 <= group_count)%Z ->
  exists batches,
    all_groups topics group_count = Ok batches
    /\ length batches = Z.to_nat group_count
    /\ concat batches = topics
    /\ (topics = [] -> Forall (fun batch => batch = []) batches)
    /\ (group_count = 1%Z -> batches = [topics]).
Proof.
  intros Hgc.
  destruct (batch_size_ceiling (Z.of_nat (length topics)) group_count)
    as (b & Hb & [Hlo Hhi] & _); [lia|assumption|].
  assert (0 <= b)%Z as Hb0 by nia.
  set (chunk := fun i : nat =>
         firstn (Z.to_nat b) (skipn (i * Z.to_nat b) topics)).
  assert (all_groups topics group_count
          = Ok (map chunk (seq 0 (Z.to_nat group_count)))) as Hall.
  { unfold all_groups. rewrite <- all_results_ok. f_equal.
    apply map_ext. intros i.
    rewrite (current_group_chunk topics _ _ b Hb Hb0) by lia.
    unfold chunk. now rewrite Nat2Z.id. }
  assert (concat (map chunk (seq 0 (Z.to_nat group_count))) = topics) as Hcat.
  { unfold chunk. rewrite concat_chunks. apply firstn_all2.
    rewrite <- Z2Nat.inj_mul by lia.
    apply Nat2Z.inj_le. rewrite Z2Nat.id by nia. lia. }
  exists (map chunk (seq 0 (Z.to_nat group_count))).
  split; [exact Hall|]. split; [now rewrite length_map, length_seq|].
  split; [exact Hcat|]. split.
  - intros ->. apply Forall_forall. intros batch Hin.
    apply in_map_iff in Hin as (i & <- & _). unfold chunk.
    now rewrite skipn_nil, firstn_nil.
  - intros ->. change (Z.to_nat 1) with 1%nat in *. simpl in *.
    now rewrite app_nil_r in Hcat; rewrite Hcat.
Qed.

Lemma partition_complete_witness :
  exists batches,
    all_groups [1; 2; 3; 4; 5]%nat 3 = Ok batches
    /\ length batches = Z.to_nat 3
    /\ concat batches = [1; 2; 3; 4; 5]%nat
    /\ ([1; 2; 3; 4; 5]%nat = [] -> Forall (fun batch => batch = []) batches)
    /\ (3%Z = 1%Z -> batches = [[1; 2; 3; 4; 5]%nat]).
Proof. apply (@partition_complete nat [1; 2; 3; 4; 5]%nat 3). lia. Defined.

(** C2. Partition sizing: for a group count of at least 1 the batch size
    is the ceiling of [T / group_count], and the batch of group [i] holds
    the items at the positions from [i * batch_size] up to, and without,
    [min ((i + 1) * batch_size) T]; ten items in three groups give the
    batch size 4 and batches of 4, 4 and 2 items. *)
Theorem partition_sizing {A} (topics : list A) (group_count : Z) :
  (1 <= group_count)%Z ->
  let T := Z.of_nat (length topics) in
  exists b,
    batch_size T group_count = Ok b
    /\ (group_count * (b - 1) < T <= group_count * b)%Z
    /\ b = ((T + group_count - 1) / group_count)%Z
    /\ (forall i, (0 <= i)%Z ->
        exists batch,
          current_group topics i group_count = Ok batch
          /\ forall k : nat,
               nth_error batch k
               = if (i * b + Z.of_nat k <? Z.min ((i + 1) * b) T)%Z
                 then nth_error topics (Z.to_nat (i * b + Z.of_nat k))
                 else None)
    /\ (T = 10%Z -> group_count = 3%Z ->
        b = 4%Z
        /\ exists b0 b1 b2,
             all_groups topics group_count = Ok [b0; b1; b2]
             /\ map (@length A) [b0; b1; b2] = [4; 4; 2]%nat).
Proof.
  intros Hgc T.
  destruct (batch_size_ceiling T group_count)
    as (b & Hb & [Hlo Hhi] & Hceil); [subst T; lia|assumption|].
  assert (0 <= b)%Z as Hb0 by (subst T; nia).
  exists b. repeat split; try assumption.
  - intros i Hi. eexists. split.
    + apply (current_group_chunk topics _ _ b Hb Hb0 Hi).
    + intros k. rewrite nth_error_firstn, nth_error_skipn.
      rewrite <- Z2Nat.inj_mul by lia.
      destruct (Nat.ltb_spec k (Z.to_nat b)) as [Hk|Hk];
        destruct (Z.ltb_spec (i * b + Z.of_nat k) (Z.min ((i + 1) * b) T))
          as [Hz|Hz].
      * f_equal. rewrite Z2Nat.inj_add, Nat2Z.id by nia. reflexivity.
      * apply nth_error_None. subst T. nia.
      * lia.
      * reflexivity.
  - rewrite Hceil, H, H0. reflexivity.
  - destruct topics as [|x0 [|x1 [|x2 [|x3 [|x4 [|x5 [|x6 [|x7 [|x8 [|x9 [|x10 l]]]]]]]]]]];
      subst T; simpl length in *; try lia.
    subst group_count. eexists _, _, _. split; reflexivity.
Qed.

Lemma partition_sizing_witness :
  exists b,
    batch_size 10 3 = Ok b
    /\ b = 4%Z
    /\ exists batch,
         current_group [0; 1; 2; 3; 4; 5; 6; 7; 8; 9]%nat 2 3 = Ok batch
         /\ nth_error batch 1 = Some 9%nat
         /\ nth_error batch 2 = None.
Proof.
  destruct (@partition_sizing nat [0; 1; 2; 3; 4; 5; 6; 7; 8; 9]%nat 3 ltac:(lia))
    as (b & Hb & _ & _ & Hat & Hex).
  exists b. split; [exact Hb|].
  destruct (Hex eq_refl eq_refl) as [Hb4 _]. split; [exact Hb4|].
  destruct (Hat 2%Z ltac:(lia)) as (batch & Hg & Hk).
  exists batch. split; [exact Hg|].
  rewrite !Hk, Hb4. split; reflexivity.
Defined.

(** ** Strings and dictionaries *)

Lemma eqb_eq (a b : str) : PyStr.eqb a b = true <-> a = b.
Proof.
  revert b; induction a as [|x a IH]; intros [|y b]; simpl;
    try (split; [discriminate|discriminate]); [tauto|].
  unfold char_eqb. rewrite andb_true_iff, N.eqb_eq, IH.
  split; [intros [-> ->]; reflexivity|intros [= -> ->]; auto].
Qed.

Lemma eqb_refl (a : str) : PyStr.eqb a a = true.
Proof. now apply eqb_eq. Qed.

Lemma eqb_neq (a b : str) : PyStr.eqb a b = false <-> a <> b.
Proof.
  rewrite <- eqb_eq. destruct (PyStr.eqb a b); split; congruence.
Qed.

Lemma has_key_lookup (k : str) (d : dict) :
  has_key k d = true <-> exists v, lookup k d = Some v.
Proof.
  induction d as [|[k' v'] d IH]; simpl.
  - split; [discriminate|intros [v [=]]].
  - destruct (PyStr.eqb k k'); simpl; [|exact IH].
    split; eauto.
Qed.

Lemma has_key_false (k : str) (d : dict) :
  has_key k d = false <-> lookup k d = None.
Proof.
  induction d as [|[k' v'] d IH]; simpl; [tauto|].
  destruct (PyStr.eqb k k'); simpl; [|exact IH].
  split; discriminate.
Qed.

Lemma lookup_In (k : str) (d : dict) (v : json) :
  lookup k d = Some v -> In (k, v) d.
Proof.
  induction d as [|[k' v'] d IH]; simpl; [discriminate|].
  destruct (PyStr.eqb k k') eqn:E.
  - apply eqb_eq in E. intros [= ->]. left. now subst.
  - auto.
Qed.

(** ** Trees of topics *)

Section TopicFoldFacts.
Context {B : Type} (node : json -> list B -> B).

(** [topic_fold] visits the children that [sub_topics_of] gives. *)
Lemma topic_fold_eq (t : json) :
  topic_fold node t = node t (map (topic_fold node) (sub_topics_of t)).
Proof.
  destruct t as [| | | | |items|d]; try reflexivity.
  simpl. f_equal.
  induction d as [|[k v] d IH]; simpl; [reflexivity|].
  destruct (PyStr.eqb (lit "sub_topics") k); [|exact IH].
  destruct v; reflexivity.
Qed.
End TopicFoldFacts.

Lemma node_count_eq (t : json) :
  node_count t = S (list_sum (map node_count (sub_topics_of t))).
Proof. unfold node_count at 1. now rewrite topic_fold_eq. Qed.

Lemma preorder_eq (t : json) :
  preorder t = t :: preorder_forest (sub_topics_of t).
Proof.
  unfold preorder at 1. rewrite topic_fold_eq.
  unfold preorder_forest. now rewrite flat_map_concat_map.
Qed.

Lemma addresses_in_eq (t : json) :
  addresses_in t = [] :: addresses (sub_topics_of t).
Proof. unfold addresses_in at 1. now rewrite topic_fold_eq. Qed.

Lemma list_sum_In (n : nat) (l : list nat) : In n l -> n <= list_sum l.
Proof.
  induction l as [|m l IH]; simpl; [tauto|].
  intros [->|H]; [lia|]. specialize (IH H). lia.
Qed.

(** Induction on a tree of topics: a property holds of every node when it
    holds of a node as soon as it holds of its children. *)
Lemma topic_ind (P : json -> Prop) :
  (forall t, (forall c, In c (sub_topics_of t) -> P c) -> P t) ->
  forall t, P t.
Proof.
  intros step.
  assert (forall n t, node_count t <= n -> P t) as H.
  { induction n as [|n IH]; intros t Hn.
    - rewrite node_count_eq in Hn. lia.
    - apply step. intros c Hc. apply IH.
      rewrite node_count_eq in Hn.
      pose proof (list_sum_In (node_count c) (map node_count (sub_topics_of t))
                    (in_map _ _ _ Hc)).
      lia. }
  intros t. now apply (H (node_count t)).
Qed.

(** ** Schema validation *)

Lemma valid_topic_eq (d : dict) :
  valid_topic (JObj d)
  = has_key (lit "name") d && has_key (lit "sub_topics") d
    && has_key (lit "url") d
    && forallb (fun kv => valid_property (fst kv) (snd kv)) d.
Proof.
  simpl. f_equal.
  induction d as [|[k v] d IH]; simpl; [reflexivity|].
  now rewrite IH.
Qed.

Lemma valid_property_lookup (k : str) (v : json) (d : dict) :
  forallb (fun kv => valid_property (fst kv) (snd kv)) d = true ->
  lookup k d = Some v -> valid_property k v = true.
Proof.
  intros Hall Hk. apply lookup_In in Hk.
  rewrite forallb_forall in Hall. exact (Hall _ Hk).
Qed.

(** What validation guarantees of a topic: it is an object whose ["name"]
    and ["url"] are non-empty strings, whose ["sub_topics"] is an array of
    valid topics, and whose ["breadcrumbs"], when present, is a non-empty
    array of non-empty strings. *)
Lemma valid_topic_inv (t : json) :
  valid_topic t = true ->
  exists d name u subs,
    t = JObj d
    /\ lookup (lit "name") d = Some (JStr name) /\ name <> []
    /\ lookup (lit "url") d = Some (JStr u) /\ u <> []
    /\ lookup (lit "sub_topics") d = Some (JArr subs)
    /\ forallb valid_topic subs = true
    /\ (forall v, lookup (lit "breadcrumbs") d = Some v ->
        valid_breadcrumbs v = true).
Proof.
  destruct t as [| | | | |items|d]; try discriminate.
  rewrite valid_topic_eq, !andb_true_iff.
  intros [[[Hn Hs] Hu] Hall].
  apply has_key_lookup in Hn as [vn Hn], Hs as [vs Hs], Hu as [vu Hu].
  pose proof (valid_property_lookup _ _ _ Hall Hn) as Pn.
  pose proof (valid_property_lookup _ _ _ Hall Hs) as Ps.
  pose proof (valid_property_lookup _ _ _ Hall Hu) as Pu.
  change (valid_nonempty_string vn = true) in Pn.
  change (match vs with JArr subs => forallb valid_topic subs | _ => false end
          = true) in Ps.
  change (valid_nonempty_string vu = true) in Pu.
  destruct vn as [| | | |name| |]; try discriminate.
  destruct vu as [| | | |u| |]; try discriminate.
  destruct vs as [| | | | |subs|]; try discriminate.
  exists d, name, u, subs. repeat split; try assumption.
  - destruct name; [discriminate|congruence].
  - destruct u; [discriminate|congruence].
  - intros v Hv. exact (valid_property_lookup _ _ _ Hall Hv).
Qed.

Lemma valid_breadcrumbs_inv (v : json) :
  valid_breadcrumbs v = true ->
  exists bc, v = JArr (map JStr bc) /\ bc <> [] /\ Forall (fun b => b <> []) bc.
Proof.
  destruct v as [| | | | |items|]; try discriminate. simpl.
  rewrite andb_true_iff. intros [Hall Hlen].
  assert (exists bc, items = map JStr bc /\ Forall (fun b => b <> []) bc)
    as (bc & -> & Hbc).
  { clear Hlen. induction items as [|j items IH]; simpl in Hall.
    - exists []. split; [reflexivity|constructor].
    - apply andb_true_iff in Hall as [Hj Hall].
      destruct (IH Hall) as (bc & -> & Hbc).
      destruct j as [| | | |s| |]; try discriminate.
      exists (s :: bc). split; [reflexivity|].
      constructor; [|assumption]. destruct s; [discriminate|congruence]. }
  exists bc. repeat split; [|assumption].
  destruct bc; [discriminate|congruence].
Qed.

Lemma valid_sub_topics (t : json) :
  valid_topic t = true -> forallb valid_topic (sub_topics_of t) = true.
Proof.
  intros H. destruct (valid_topic_inv t H)
    as (d & name & u & subs & -> & _ & _ & _ & _ & Hs & Hsubs & _).
  simpl. now rewrite Hs.
Qed.

(** Validation reaches every node of the forest. *)
Lemma valid_preorder (t : json) :
  valid_topic t = true -> forallb valid_topic (preorder t) = true.
Proof.
  induction t as [t IH] using topic_ind. intros H.
  rewrite preorder_eq. simpl. rewrite H. simpl.
  pose proof (valid_sub_topics t H) as Hs.
  unfold preorder_forest.
  rewrite forallb_forall in Hs |- *.
  intros x Hx. apply in_flat_map in Hx as (c & Hc & Hx).
  specialize (IH c Hc (Hs c Hc)).
  rewrite forallb_forall in IH. auto.
Qed.

(** ** The flattener *)

Lemma get_all_topics_eq (d : dict) :
  get_all_topics (JObj d)
  = (u <- getitem (lit "url") d ;;
     u <- as_str u ;;
     bc <- getitem (lit "breadcrumbs") d ;;
     bc <- as_list bc ;;
     bc <- as_str_list bc ;;
     descendants <-
       (subs <- getitem (lit "sub_topics") d ;;
        subs <- as_list subs ;;
        flat_map_result get_all_topics subs) ;;
     Ok (mkWorkItem u (relative_path bc) :: descendants)).
Proof.
  simpl.
  assert ((fix sub_topics (fs : dict) : result (list WorkItem) :=
             match fs with
             | [] => Raise (KeyError (lit "sub_topics"))
             | (k, v) :: fs' =>
                 if PyStr.eqb (lit "sub_topics") k then
                   match v with
                   | JArr subs => flat_map_result get_all_topics subs
                   | _ => Raise TypeError
                   end
                 else sub_topics fs'
             end) d
          = (subs <- getitem (lit "sub_topics") d ;;
             subs <- as_list subs ;;
             flat_map_result get_all_topics subs)) as ->; [|reflexivity].
  unfold getitem.
  induction d as [|[k v] d IH]; simpl; [reflexivity|].
  destruct (PyStr.eqb (lit "sub_topics") k); [|exact IH].
  destruct v; reflexivity.
Qed.

Lemma as_str_list_strings (bc : list str) : as_str_list (map JStr bc) = Ok bc.
Proof.
  induction bc as [|b bc IH]; simpl; [reflexivity|]. now rewrite IH.
Qed.

Lemma strings_of_strings (bc : list str) : strings_of (map JStr bc) = Some bc.
Proof.
  induction bc as [|b bc IH]; simpl; [reflexivity|]. now rewrite IH.
Qed.

Lemma preorder_forest_cons (t : json) (ts : list json) :
  preorder_forest (t :: ts) = preorder t ++ preorder_forest ts.
Proof. reflexivity. Qed.

Lemma flattened_forest (ts : list json) :
  (forall c, In c ts -> valid_topic c = true ->
             flattened (get_all_topics c) (preorder c)) ->
  forallb valid_topic ts = true ->
  flattened (flat_map_result get_all_topics ts) (preorder_forest ts).
Proof.
  unfold flattened.
  induction ts as [|t ts IH]; intros Htree Hvalid.
  - simpl. exists []. split; reflexivity.
  - simpl in Hvalid. apply andb_true_iff in Hvalid as [Ht Hts].
    specialize (IH (fun c Hc => Htree c (or_intror Hc)) Hts).
    specialize (Htree t (or_introl eq_refl) Ht).
    rewrite preorder_forest_cons, forallb_app. simpl flat_map_result.
    destruct (forallb has_breadcrumbs (preorder t)).
    + destruct Htree as (xs & -> & Hxs).
      destruct (forallb has_breadcrumbs (preorder_forest ts)); simpl.
      * destruct IH as (ys & -> & Hys). simpl.
        exists (xs ++ ys). split; [reflexivity|].
        now rewrite !map_app, Hxs, Hys.
      * rewrite IH. reflexivity.
    + rewrite Htree. reflexivity.
Qed.

Lemma flattened_topic (t : json) :
  valid_topic t = true -> flattened (get_all_topics t) (preorder t).
Proof.
  induction t as [t IH] using topic_ind. intros Hvalid.
  pose proof (valid_sub_topics t Hvalid) as Hsubs.
  pose proof (flattened_forest (sub_topics_of t) IH Hsubs) as Hforest.
  destruct (valid_topic_inv t Hvalid)
    as (d & name & u & subs & -> & _ & _ & Hu & _ & Hs & _ & Hbc).
  assert (sub_topics_of (JObj d) = subs) as Esubs by (simpl; now rewrite Hs).
  rewrite Esubs in *.
  assert (get_all_topics (JObj d)
          = (bc <- getitem (lit "breadcrumbs") d ;;
             bc <- as_list bc ;;
             bc <- as_str_list bc ;;
             descendants <- flat_map_result get_all_topics subs ;;
             Ok (mkWorkItem u (relative_path bc) :: descendants))) as ->.
  { rewrite get_all_topics_eq. unfold getitem. now rewrite Hu, Hs. }
  rewrite preorder_eq, Esubs. unfold flattened in *. simpl forallb.
  unfold getitem.
  destruct (has_key (lit "breadcrumbs") d) eqn:Hk.
  - apply has_key_lookup in Hk as [v Hv].
    destruct (valid_breadcrumbs_inv v (Hbc v Hv)) as (bc & -> & _ & _).
    rewrite Hv. simpl bind. rewrite as_str_list_strings. simpl bind.
    destruct (forallb has_breadcrumbs (preorder_forest subs)); simpl.
    + destruct Hforest as (items & -> & Hitems). simpl.
      eexists. split; [reflexivity|]. simpl. f_equal; [|exact Hitems].
      unfold work_item. simpl. now rewrite Hu, Hv, strings_of_strings.
    + rewrite Hforest. reflexivity.
  - apply has_key_false in Hk. rewrite Hk. reflexivity.
Qed.

Lemma flattened_structure (roots : list json) :
  STRUCTURE_SCHEMA (JArr roots) = true ->
  flattened (flatten (JArr roots)) (preorder_forest roots).
Proof.
  simpl. rewrite andb_true_iff. intros [_ Hvalid].
  apply flattened_forest; [|assumption].
  intros c _. apply flattened_topic.
Qed.

Lemma preorder_length (t : json) : length (preorder t) = node_count t.
Proof.
  induction t as [t IH] using topic_ind.
  rewrite preorder_eq, node_count_eq. simpl. f_equal.
  induction (sub_topics_of t) as [|c cs IHcs]; [reflexivity|].
  rewrite preorder_forest_cons, length_app. simpl.
  rewrite IH by now left.
  rewrite IHcs; [reflexivity|]. intros c' Hc'. apply IH. now right.
Qed.

Lemma preorder_forest_length (roots : list json) :
  length (preorder_forest roots) = forest_count roots.
Proof.
  unfold forest_count.
  induction roots as [|t ts IH]; [reflexivity|].
  rewrite preorder_forest_cons, length_app, preorder_length, IH.
  reflexivity.
Qed.

(** ** Pre-order is document order *)

Lemma addr_ltb_cons (n : nat) (a b : address) :
  addr_ltb (n :: a) (n :: b) = addr_ltb a b.
Proof. simpl. now rewrite Nat.ltb_irrefl, Nat.eqb_refl. Qed.

Lemma addr_ltb_shift (a b : address) :
  addr_ltb (shift a) (shift b) = addr_ltb a b.
Proof. destruct a, b; reflexivity. Qed.

Lemma StronglySorted_app {A} (R : A -> A -> Prop) (l1 l2 : list A) :
  StronglySorted R l1 -> StronglySorted R l2 ->
  (forall x y, In x l1 -> In y l2 -> R x y) ->
  StronglySorted R (l1 ++ l2).
Proof.
  induction l1 as [|x l1 IH]; intros H1 H2 Hx; simpl; [assumption|].
  inversion H1 as [|? ? Hs Hf]; subst. constructor.
  - apply IH; [assumption..|]. intros; apply Hx; simpl; auto.
  - apply Forall_app. split; [assumption|].
    apply Forall_forall. intros y Hy. apply Hx; simpl; auto.
Qed.

Lemma StronglySorted_map {A} (R : A -> A -> Prop) (f : A -> A) (l : list A) :
  (forall x y, R x y -> R (f x) (f y)) ->
  StronglySorted R l -> StronglySorted R (map f l).
Proof.
  intros Hf. induction 1 as [|x l Hs IH Hall]; simpl; constructor.
  - assumption.
  - apply Forall_map. eapply Forall_impl; [|exact Hall]. auto.
Qed.

Lemma number_from_shift (n : nat) (rs : list (list address)) :
  number_from (S n) rs = map shift (number_from n rs).
Proof.
  revert n; induction rs as [|r rs IH]; intros n; simpl; [reflexivity|].
  now rewrite map_app, map_map, IH.
Qed.

Lemma addresses_cons (t : json) (ts : list json) :
  addresses (t :: ts)
  = map (cons 0) (addresses_in t) ++ map shift (addresses ts).
Proof. unfold addresses. simpl. now rewrite number_from_shift. Qed.

Lemma node_at_shift (t : json) (ts : list json) (a : address) :
  node_at (t :: ts) (shift a) = node_at ts a.
Proof. destruct a; reflexivity. Qed.

Lemma document_order_forest (ts : list json) :
  (forall c, In c ts ->
             document_order (subtree c) (addresses_in c) (preorder c)) ->
  document_order (node_at ts) (addresses ts) (preorder_forest ts).
Proof.
  induction ts as [|t ts IH]; intros Htree.
  - repeat split; try constructor; simpl; try tauto.
    intros H. destruct a as [|[|i] a]; now elim H.
  - destruct (Htree t (or_introl eq_refl)) as (St & Mt & Et).
    destruct (IH (fun c Hc => Htree c (or_intror Hc))) as (Ss & Ms & Es).
    rewrite addresses_cons, preorder_forest_cons. split; [|split].
    + apply StronglySorted_app.
      * apply StronglySorted_map; [|assumption].
        intros x y. unfold addr_lt. now rewrite addr_ltb_cons.
      * apply StronglySorted_map; [|assumption].
        intros x y. unfold addr_lt. now rewrite addr_ltb_shift.
      * intros x y Hx Hy.
        apply in_map_iff in Hx as (x' & <- & _).
        apply in_map_iff in Hy as (y' & <- & Hy).
        apply Ms in Hy. destruct y' as [|i y']; [now elim Hy|reflexivity].
    + intros a. rewrite in_app_iff, !in_map_iff. split.
      * intros [(a' & <- & Ha)|(b & <- & Hb)].
        -- simpl. now apply Mt.
        -- rewrite node_at_shift. now apply Ms.
      * intros Ha. destruct a as [|[|i] a']; [now elim Ha| |].
        -- left. exists a'. split; [reflexivity|]. now apply Mt.
        -- right. exists (i :: a'). split; [reflexivity|]. now apply Ms.
    + rewrite !map_app, !map_map. f_equal.
      * exact Et.
      * rewrite <- Es. apply map_ext. intros a. apply node_at_shift.
Qed.

Lemma document_order_topic (t : json) :
  document_order (subtree t) (addresses_in t) (preorder t).
Proof.
  induction t as [t IH] using topic_ind.
  destruct (document_order_forest (sub_topics_of t) IH) as (Ss & Ms & Es).
  rewrite addresses_in_eq, preorder_eq. split; [|split].
  - constructor; [assumption|].
    apply Forall_forall. intros a Ha. apply Ms in Ha.
    destruct a; [now elim Ha|reflexivity].
  - intros a. simpl. split.
    + intros [<-|Ha]; [discriminate|].
      apply Ms in Ha. destruct a; [now elim Ha|exact Ha].
    + intros Ha. destruct a as [|i a]; [now left|].
      right. apply Ms. exact Ha.
  - simpl. f_equal. rewrite <- Es. apply map_ext_in.
    intros a Ha. apply Ms in Ha. destruct a; [now elim Ha|reflexivity].
Qed.

(** C3. On a valid structure document in which every node has breadcrumbs
    the flattener returns one work item for each node of the forest, roots
    and inner nodes included, in pre-order: the items are those of the
    nodes taken in document order of their positions (a parent before its
    children, siblings in their order, a root with its whole subtree before
    the next root), each position once; so there are as many items as
    nodes. *)
Theorem flatten_preorder (roots : list json) :
  STRUCTURE_SCHEMA (JArr roots) = true ->
  forallb has_breadcrumbs (preorder_forest roots) = true ->
  exists items,
    flatten (JArr roots) = Ok items
    /\ map Some items = map work_item (preorder_forest roots)
    /\ length items = forest_count roots
    /\ document_order (node_at roots) (addresses roots) (preorder_forest roots).
Proof.
  intros Hvalid Hbc.
  pose proof (flattened_structure roots Hvalid) as H.
  unfold flattened in H. rewrite Hbc in H.
  destruct H as (items & Hitems & Hmap).
  exists items. split; [exact Hitems|]. split; [exact Hmap|]. split.
  - rewrite <- preorder_forest_length.
    rewrite <- (length_map Some items), Hmap. apply length_map.
  - apply document_order_forest. intros c _. apply document_order_topic.
Qed.

Lemma flatten_preorder_witness :
  exists items,
    flatten example_document = Ok items
    /\ map Some items
       = map work_item
           (preorder_forest
              [topic "A" "u1" ["products"; "A"]%string
                 [topic "B" "u2" ["products"; "A"; "B"]%string []]])
    /\ length items = 2
    /\ addresses
         [topic "A" "u1" ["products"; "A"]%string
            [topic "B" "u2" ["products"; "A"; "B"]%string []]]
       = [[0]; [0; 0]].
Proof.
  destruct (flatten_preorder
              [topic "A" "u1" ["products"; "A"]%string
                 [topic "B" "u2" ["products"; "A"; "B"]%string []]])
    as (items & Hf & Hm & Hl & _).
  - vm_compute. reflexivity.
  - vm_compute. reflexivity.
  - exists items. split; [exact Hf|]. split; [exact Hm|].
    split; [exact Hl|]. vm_compute. reflexivity.
Defined.

(** ** Runs *)

Section RunFacts.
Variable R : Runtime.
Implicit Types (w : World R) (args : Args) (data : json).

(** One turn of the loop of [dispatch]. *)
Lemma dispatch_cons (out_dir : str) (t : WorkItem) (group : list WorkItem)
  (s : state R) :
  dispatch out_dir (t :: group) s
  = let wc := crawl R (world s) (url t) (path_join out_dir (path t)) in
    let s' :=
      mkState R (fst wc)
        (Run (url t) (path_join out_dir (path t))
         :: Print (Processing (path t)) :: events s) in
    if (snd wc =? 0)%Z then dispatch out_dir group s'
    else (s', Raise (CalledProcessError (snd wc))).
Proof.
  unfold dispatch. simpl for_each.
  unfold mbind at 1. unfold mbind at 1. unfold print, run_crawl.
  simpl world. simpl events.
  destruct (crawl R (world s) (url t) (path_join out_dir (path t)))
    as [w' code].
  simpl. destruct (code =? 0)%Z; reflexivity.
Qed.

(** A dispatch only adds to the events of the state it starts from. *)
Lemma dispatch_frame (out_dir : str) (group : list WorkItem) w
  (ev : list event) :
  dispatch out_dir group (mkState R w ev)
  = let sr := dispatch out_dir group (mkState R w []) in
    (mkState R (world (fst sr)) (events (fst sr) ++ ev), snd sr).
Proof.
  revert w ev. induction group as [|t group IH]; intros w ev.
  - reflexivity.
  - rewrite !dispatch_cons. cbv zeta. simpl world. simpl events.
    destruct (snd (crawl R w (url t) (path_join out_dir (path t))) =? 0)%Z.
    + rewrite IH. rewrite (IH _ [_; _]). cbv zeta. simpl.
      now rewrite <- app_assoc.
    + reflexivity.
Qed.

(** A dispatch in which every crawler succeeds runs them all. *)
Lemma dispatch_all_succeed (out_dir : str) (group : list WorkItem) w :
  all_succeed R out_dir w group = true ->
  dispatch out_dir group (mkState R w [])
  = (mkState R (crawl_all R out_dir w group)
       (rev (dispatch_events out_dir group)), Ok tt).
Proof.
  revert w. induction group as [|t group IH]; intros w Hall.
  - reflexivity.
  - simpl in Hall. apply andb_true_iff in Hall as [Hcode Hall].
    unfold exit_code in Hcode.
    rewrite dispatch_cons. cbv zeta. simpl world. simpl events.
    rewrite Hcode, dispatch_frame, (IH _ Hall).
    simpl. now rewrite <- app_assoc.
Qed.

(** A dispatch stops at the first crawler that fails. *)
Lemma dispatch_first_failure (out_dir : str) (pre post : list WorkItem)
  (x : WorkItem) w :
  all_succeed R out_dir w pre = true ->
  exit_code R out_dir (crawl_all R out_dir w pre) x <> 0%Z ->
  dispatch out_dir (pre ++ x :: post) (mkState R w [])
  = (mkState R (crawl_all R out_dir w (pre ++ [x]))
       (rev (dispatch_events out_dir (pre ++ [x]))),
     Raise (CalledProcessError
              (exit_code R out_dir (crawl_all R out_dir w pre) x))).
Proof.
  revert w. induction pre as [|t pre IH]; intros w Hall Hcode.
  - simpl app. rewrite dispatch_cons. cbv zeta. simpl world. simpl events.
    simpl in Hcode. unfold exit_code in *.
    apply Z.eqb_neq in Hcode. rewrite Hcode. reflexivity.
  - simpl in Hall. apply andb_true_iff in Hall as [Ht Hall].
    unfold exit_code in Ht.
    simpl app. rewrite dispatch_cons. cbv zeta. simpl world. simpl events.
    rewrite Ht, dispatch_frame, (IH _ Hall Hcode).
    simpl. now rewrite <- app_assoc.
Qed.

Lemma run_invalid args data w :
  STRUCTURE_SCHEMA data = false ->
  run R args data w = mkOutcome R w [] (Raise ValidationError).
Proof.
  intros H. unfold run, main, mbind, lift, validate. now rewrite H.
Qed.

Lemma run_not_flattened args data w (e : exn) :
  STRUCTURE_SCHEMA data = true ->
  sorted_topics data = Raise e ->
  run R args data w = mkOutcome R w [] (Raise e).
Proof.
  intros Hv Hs. unfold run, main, mbind, lift, validate.
  now rewrite Hv, Hs.
Qed.

Lemma run_malformed_range args data w (topics : list WorkItem) :
  STRUCTURE_SCHEMA data = true ->
  sorted_topics data = Ok topics ->
  well_formed_range R (topic_range args) = false ->
  run R args data w = mkOutcome R w [] (Raise ValueError).
Proof.
  intros Hv Hs Hr. unfold run, main, mbind, lift, validate.
  rewrite Hv, Hs. unfold well_formed_range in Hr.
  apply orb_false_iff in Hr as [Hstar Hr]. rewrite Hstar.
  unfold parse_range.
  destruct (split (lit "-") (topic_range args)) as [|a [|b [|c l]]];
    try reflexivity.
  destruct (py_int R a), (py_int R b); try reflexivity. discriminate.
Qed.

(** A run with a well-formed range, up to the dispatch. *)
Lemma run_well_formed args data w (topics : list WorkItem) :
  STRUCTURE_SCHEMA data = true ->
  sorted_topics data = Ok topics ->
  well_formed_range R (topic_range args) = true ->
  run R args data w
  = match current_group topics (group_index args) (group_count args) with
    | Raise e =>
        mkOutcome R w (preamble R (topic_range args) topics) (Raise e)
    | Ok group =>
        let sr := dispatch (output_dir args) group (mkState R w []) in
        mkOutcome R (world (fst sr))
          (preamble R (topic_range args) topics ++ rev (events (fst sr)))
          (snd sr)
    end.
Proof.
  intros Hv Hs Hr. unfold run, main, validate. rewrite Hv, Hs.
  unfold mbind at 1. unfold lift at 1. unfold mbind at 1. unfold lift at 1.
  unfold mbind at 1. unfold preamble.
  assert (exists ev,
    (if PyStr.eqb (topic_range args) (lit "*") then ret tt
     else mbind (lift (parse_range R (topic_range args)))
            (fun se => print (Filtering (fst se) (snd se))))
      (mkState R w []) = (mkState R w ev, Ok tt)
    /\ rev ev
       = (if PyStr.eqb (topic_range args) (lit "*") then []
          else match parse_range R (topic_range args) with
               | Ok (first, last) => [Print (Filtering first last)]
               | Raise _ => []
               end)) as (ev & -> & <-).
  { unfold well_formed_range in Hr.
    destruct (PyStr.eqb (topic_range args) (lit "*")).
    - exists []. split; reflexivity.
    - unfold parse_range, mbind, lift, print. simpl in Hr.
      destruct (split (lit "-") (topic_range args)) as [|a [|b [|c l]]];
        try discriminate.
      destruct (py_int R a), (py_int R b); try discriminate.
      eexists. split; reflexivity. }
  unfold mbind at 1. unfold print at 1. simpl world. simpl events.
  unfold mbind, lift.
  destruct (current_group topics (group_index args) (group_count args))
    as [group|e].
  - rewrite dispatch_frame. cbv zeta.
    destruct (dispatch (output_dir args) group (mkState R w []))
      as [s r]. simpl. f_equal.
    rewrite rev_app_distr. simpl. now rewrite <- app_assoc.
  - reflexivity.
Qed.

Lemma calls_app (t1 t2 : list event) :
  calls (t1 ++ t2) = calls t1 ++ calls t2.
Proof. unfold calls. apply flat_map_app. Qed.

Lemma calls_preamble (r : str) (topics : list WorkItem) :
  calls (preamble R r topics) = [].
Proof.
  unfold preamble. rewrite calls_app.
  destruct (PyStr.eqb r (lit "*")); [reflexivity|].
  destruct (parse_range R r) as [[a b]|]; reflexivity.
Qed.

Lemma calls_dispatch_events (out_dir : str) (items : list WorkItem) :
  calls (dispatch_events out_dir items) = map (call_of out_dir) items.
Proof.
  induction items as [|t items IH]; simpl; [reflexivity|].
  now rewrite IH.
Qed.
End RunFacts.

(** ** Sorting by path *)

Lemma leb_refl (a : str) : PyStr.leb a a = true.
Proof.
  induction a as [|x a IH]; simpl; [reflexivity|].
  now rewrite N.ltb_irrefl.
Qed.

Lemma leb_total (a b : str) : PyStr.leb a b = false -> PyStr.leb b a = true.
Proof.
  revert b; induction a as [|x a IH]; intros [|y b]; simpl;
    try discriminate; try reflexivity.
  destruct (N.ltb_spec x y), (N.ltb_spec y x);
    try discriminate; try reflexivity; try lia.
  apply IH.
Qed.

Lemma leb_trans (a b c : str) :
  PyStr.leb a b = true -> PyStr.leb b c = true -> PyStr.leb a c = true.
Proof.
  revert b c; induction a as [|x a IH]; intros [|y b] [|z c]; simpl;
    try discriminate; try reflexivity.
  destruct (N.ltb_spec x y), (N.ltb_spec y x), (N.ltb_spec y z),
    (N.ltb_spec z y), (N.ltb_spec x z), (N.ltb_spec z x);
    try discriminate; try reflexivity; try lia.
  apply IH.
Qed.

Lemma leb_antisym (a b : str) :
  PyStr.leb a b = true -> PyStr.leb b a = true -> a = b.
Proof.
  revert b; induction a as [|x a IH]; intros [|y b]; simpl;
    try discriminate; try reflexivity.
  destruct (N.ltb_spec x y), (N.ltb_spec y x);
    try discriminate; try lia.
  intros H1 H2. f_equal; [lia|]. now apply IH.
Qed.

Lemma insert_by_path_perm (x : WorkItem) (l : list WorkItem) :
  Permutation (x :: l) (insert_by_key path x l).
Proof.
  induction l as [|y l IH]; simpl; [reflexivity|].
  destruct (PyStr.leb (path x) (path y)); [reflexivity|].
  rewrite perm_swap. now constructor.
Qed.

Lemma sorted_perm (l : list WorkItem) : Permutation l (sorted path l).
Proof.
  induction l as [|x l IH]; simpl; [reflexivity|].
  rewrite <- insert_by_path_perm. now constructor.
Qed.

Lemma insert_by_path_sorted (x : WorkItem) (l : list WorkItem) :
  StronglySorted path_le l -> StronglySorted path_le (insert_by_key path x l).
Proof.
  induction 1 as [|y l Hs IH Hall]; simpl.
  - repeat constructor.
  - destruct (PyStr.leb (path x) (path y)) eqn:E.
    + constructor; [now constructor|].
      constructor; [exact E|].
      eapply Forall_impl; [|exact Hall].
      intros z Hz. exact (leb_trans _ _ _ E Hz).
    + constructor; [exact IH|].
      rewrite <- insert_by_path_perm.
      constructor; [|exact Hall]. now apply leb_total.
Qed.

Lemma sorted_sorted (l : list WorkItem) : StronglySorted path_le (sorted path l).
Proof.
  induction l as [|x l IH]; simpl; [constructor|].
  now apply insert_by_path_sorted.
Qed.

(** The sort is stable: items with the same path keep their order. *)
Lemma insert_by_path_stable (p : str) (x : WorkItem) (l : list WorkItem) :
  with_path p (insert_by_key path x l) = with_path p (x :: l).
Proof.
  unfold with_path.
  induction l as [|y l IH]; simpl; [reflexivity|].
  destruct (PyStr.leb (path x) (path y)) eqn:E; [reflexivity|].
  simpl. rewrite IH. simpl.
  destruct (PyStr.eqb (path x) p) eqn:Ex, (PyStr.eqb (path y) p) eqn:Ey;
    try reflexivity.
  apply eqb_eq in Ex, Ey. rewrite Ex, Ey, leb_refl in E. discriminate.
Qed.

Lemma sorted_stable (p : str) (l : list WorkItem) :
  with_path p (sorted path l) = with_path p l.
Proof.
  induction l as [|x l IH]; simpl; [reflexivity|].
  rewrite insert_by_path_stable. simpl. now rewrite IH.
Qed.

Lemma with_path_In (x : WorkItem) (l : list WorkItem) :
  In x l <-> In x (with_path (path x) l).
Proof.
  unfold with_path. rewrite filter_In, eqb_refl. tauto.
Qed.

(** A list sorted by path is determined by the order of the items of each
    path. *)
Lemma stable_sorted_unique (l1 l2 : list WorkItem) :
  StronglySorted path_le l1 -> StronglySorted path_le l2 ->
  (forall p, with_path p l1 = with_path p l2) ->
  l1 = l2.
Proof.
  intros H1. revert l2.
  induction H1 as [|x l1 Hs1 IH Hall1]; intros l2 H2 Heq.
  - destruct l2 as [|y l2]; [reflexivity|].
    specialize (Heq (path y)). simpl in Heq.
    rewrite eqb_refl in Heq. discriminate.
  - destruct H2 as [|y l2 Hs2 Hall2].
    + specialize (Heq (path x)). simpl in Heq.
      rewrite eqb_refl in Heq. discriminate.
    + assert (path x = path y) as Exy.
      { apply leb_antisym.
        - assert (In y (x :: l1)) as Hy.
          { apply <- with_path_In. rewrite Heq. apply -> with_path_In. now left. }
          destruct Hy as [->|Hy]; [apply leb_refl|].
          rewrite Forall_forall in Hall1. exact (Hall1 y Hy).
        - assert (In x (y :: l2)) as Hx.
          { apply <- with_path_In. rewrite <- Heq. apply -> with_path_In. now left. }
          destruct Hx as [->|Hx]; [apply leb_refl|].
          rewrite Forall_forall in Hall2. exact (Hall2 x Hx). }
      assert (x = y) as <-.
      { specialize (Heq (path x)). simpl in Heq.
        rewrite <- Exy, eqb_refl in Heq. congruence. }
      f_equal. apply IH; [assumption|].
      intros p. specialize (Heq p). simpl in Heq.
      destruct (PyStr.eqb (path x) p); congruence.
Qed.

(** C5. The topics a run works on are the flattened items sorted by path:
    the paths do not decrease along the sequence, the sequence has the
    same items as the traversal, items of one path stay in traversal
    order; this sequence is the only one with these properties, so every
    run on the same document gets the same items in the same order. *)
Theorem topics_sorted_by_path (data : json) (topics : list WorkItem) :
  sorted_topics data = Ok topics ->
  StronglySorted path_le topics
  /\ (exists flat,
        flatten data = Ok flat
        /\ Permutation flat topics
        /\ (forall p, with_path p topics = with_path p flat)
        /\ forall other,
             StronglySorted path_le other ->
             (forall p, with_path p other = with_path p flat) ->
             other = topics)
  /\ forall again, sorted_topics data = Ok again -> again = topics.
Proof.
  unfold sorted_topics. intros H.
  destruct (flatten data) as [flat|e]; [|discriminate].
  simpl in H. injection H as <-.
  split; [apply sorted_sorted|]. split.
  - exists flat. split; [reflexivity|]. split; [apply sorted_perm|].
    split; [intros p; apply sorted_stable|].
    intros other Hs Hp. apply stable_sorted_unique.
    + exact Hs.
    + apply sorted_sorted.
    + intros p. now rewrite Hp, sorted_stable.
  - simpl. intros again [= <-]. reflexivity.
Qed.

Lemma topics_sorted_by_path_witness :
  StronglySorted path_le
    [mkWorkItem (lit "u1") (lit "products/A");
     mkWorkItem (lit "u2") (lit "products/A/B")].
Proof.
  apply (topics_sorted_by_path example_document
           [mkWorkItem (lit "u1") (lit "products/A");
            mkWorkItem (lit "u2") (lit "products/A/B")]).
  vm_compute. reflexivity.
Defined.

(** ** Paths and breadcrumbs *)

Section PathFacts.
#[local] Arguments N.eqb : simpl never.
#[local] Arguments char_eqb : simpl never.

Lemma slash_eq : slash = [47%N].
Proof. reflexivity. Qed.

Lemma sentinel_eq : sentinel = 95%N :: slash_word ++ [95%N].
Proof. reflexivity. Qed.

Lemma sentinel_then_slash_eq : sentinel_then_slash = 95%N :: slash_word ++ [47%N].
Proof. reflexivity. Qed.

Lemma sentinel_chars : sentinel = [95; 115; 108; 97; 115; 104; 95]%N.
Proof. reflexivity. Qed.

Lemma escape_nil : escape [] = [].
Proof. reflexivity. Qed.

Lemma escape_cons (c : char) (s : str) :
  escape (c :: s)
  = if N.eqb 47%N c then sentinel ++ escape s else c :: escape s.
Proof.
  unfold escape. rewrite slash_eq. unfold replace. simpl. unfold char_eqb.
  now rewrite andb_true_r.
Qed.

Lemma escape_no_slash (s : str) : ~ In 47%N (escape s).
Proof.
  induction s as [|c s IH]; [simpl; tauto|].
  rewrite escape_cons. destruct (N.eqb_spec 47%N c) as [E|E].
  - rewrite sentinel_chars, in_app_iff. intros [H|H]; [|tauto].
    simpl in H. repeat (destruct H as [H|H]; [discriminate|]). exact H.
  - simpl. intros [H|H]; [congruence|tauto].
Qed.

Lemma contains_slash (s : str) : contains slash s = false <-> ~ In 47%N s.
Proof.
  rewrite slash_eq.
  induction s as [|c s IH]; simpl; [tauto|].
  unfold char_eqb. rewrite andb_true_r, orb_false_iff, IH, N.eqb_neq.
  intuition congruence.
Qed.

(** *** Splitting a joined path *)

Lemma split_from_plain (cur p : str) :
  ~ In 47%N p -> split_from slash 0 cur p = [rev cur ++ p].
Proof.
  rewrite slash_eq. revert cur.
  induction p as [|c p IH]; intros cur Hp; simpl.
  - now rewrite app_nil_r.
  - unfold char_eqb. destruct (N.eqb_spec 47%N c) as [E|E]; simpl.
    + elim Hp. now left.
    + rewrite IH by (intros H; apply Hp; now right).
      simpl. now rewrite <- app_assoc.
Qed.

Lemma split_from_sep (cur p rest : str) :
  ~ In 47%N p ->
  split_from slash 0 cur (p ++ slash ++ rest)
  = (rev cur ++ p) :: split_from slash 0 [] rest.
Proof.
  rewrite slash_eq. revert cur.
  induction p as [|c p IH]; intros cur Hp; simpl.
  - now rewrite app_nil_r.
  - unfold char_eqb. destruct (N.eqb_spec 47%N c) as [E|E]; simpl.
    + elim Hp. now left.
    + simpl in IH. rewrite IH by (intros H; apply Hp; now right).
      simpl. now rewrite <- app_assoc.
Qed.

Lemma split_join (parts : list str) :
  parts <> [] -> Forall (fun p => ~ In 47%N p) parts ->
  split slash (join slash parts) = parts.
Proof.
  unfold split. intros Hne Hall. revert Hne.
  induction Hall as [|p parts Hp Hall IH]; intros Hne; [now elim Hne|].
  destruct parts as [|q parts].
  - simpl. now rewrite split_from_plain.
  - change (join slash (p :: q :: parts))
      with (p ++ slash ++ join slash (q :: parts)).
    rewrite split_from_sep by assumption.
    simpl. f_equal. apply IH. discriminate.
Qed.

(** *** Reversing the substitution *)

Lemma restore_sentinel (t : str) : restore (sentinel ++ t) = 47%N :: restore t.
Proof. unfold restore. rewrite sentinel_eq, slash_eq. reflexivity. Qed.

Lemma restore_cons (c : char) (t : str) :
  startswith sentinel (c :: t) = false -> restore (c :: t) = c :: restore t.
Proof.
  unfold restore. rewrite sentinel_eq. unfold replace. simpl app.
  unfold replace_from at 1. fold replace_from.
  now intros ->.
Qed.

Lemma restore_match (c : char) (t : str) :
  startswith sentinel (c :: t) = true ->
  exists t', restore (c :: t) = 47%N :: t'.
Proof.
  unfold restore. rewrite sentinel_eq, slash_eq. unfold replace. simpl app.
  unfold replace_from at 1. fold replace_from.
  intros ->. eexists. reflexivity.
Qed.

(** Where the escaped text begins with a word made of characters other
    than the slash and the underscore. *)
Lemma startswith_escape (p : str) (s : str) :
  Forall (fun x => x <> 47%N /\ x <> 95%N) p ->
  startswith (p ++ [95%N]) (escape s)
  = startswith (p ++ [95%N]) s || startswith (p ++ [47%N]) s.
Proof.
  intros Hp. revert s. induction Hp as [|x p [Hx1 Hx2] Hp IH]; intros s.
  - destruct s as [|y s]; [reflexivity|].
    rewrite escape_cons. simpl. unfold char_eqb.
    destruct (N.eqb_spec 47%N y) as [<-|E].
    + rewrite sentinel_eq. reflexivity.
    + simpl. unfold char_eqb. now rewrite !andb_true_r, orb_false_r.
  - destruct s as [|y s]; [reflexivity|].
    rewrite escape_cons. simpl. unfold char_eqb.
    destruct (N.eqb_spec 47%N y) as [<-|E].
    + rewrite sentinel_eq. simpl. unfold char_eqb.
      destruct (N.eqb_spec x 95%N); [congruence|].
      destruct (N.eqb_spec x 47%N); [congruence|]. reflexivity.
    + simpl. unfold char_eqb. rewrite IH.
      now rewrite andb_orb_distrib_r.
Qed.

Lemma startswith_sentinel_escape (c : char) (s : str) :
  c <> 47%N ->
  startswith sentinel (c :: escape s)
  = startswith sentinel (c :: s) || startswith sentinel_then_slash (c :: s).
Proof.
  intros Hc.
  change (startswith sentinel (c :: escape s))
    with (char_eqb 95%N c && startswith (slash_word ++ [95%N]) (escape s)).
  change (startswith sentinel (c :: s))
    with (char_eqb 95%N c && startswith (slash_word ++ [95%N]) s).
  change (startswith sentinel_then_slash (c :: s))
    with (char_eqb 95%N c && startswith (slash_word ++ [47%N]) s).
  rewrite startswith_escape.
  - now rewrite andb_orb_distrib_r.
  - change slash_word with [115; 108; 97; 115; 104]%N.
    repeat constructor; discriminate.
Qed.

(** Reversing the substitution gives the text back exactly when the text
    holds neither the sentinel nor its beginning followed by a slash. *)
Lemma restore_escape (s : str) :
  restore (escape s) = s
  <-> contains sentinel s = false /\ contains sentinel_then_slash s = false.
Proof.
  induction s as [|c s IH].
  - split; [split|]; reflexivity.
  - rewrite escape_cons.
    change (contains sentinel (c :: s))
      with (startswith sentinel (c :: s) || contains sentinel s).
    change (contains sentinel_then_slash (c :: s))
      with (startswith sentinel_then_slash (c :: s)
            || contains sentinel_then_slash s).
    destruct (N.eqb_spec 47%N c) as [<-|E].
    + rewrite restore_sentinel.
      change (startswith sentinel (47%N :: s)) with false.
      change (startswith sentinel_then_slash (47%N :: s)) with false.
      simpl orb. rewrite <- IH. split; [now intros [= ->]|now intros ->].
    + pose proof (startswith_sentinel_escape c s (not_eq_sym E)) as Hm.
      destruct (startswith sentinel (c :: escape s)) eqn:M.
      * destruct (restore_match _ _ M) as [t' ->].
        split; [intros [= H]; congruence|].
        rewrite !orb_false_iff. intros [[H1 _] [H2 _]].
        rewrite H1, H2 in Hm. discriminate.
      * rewrite (restore_cons _ _ M).
        symmetry in Hm. apply orb_false_iff in Hm as [-> ->].
        simpl orb. rewrite <- IH. split; [now intros [= ->]|now intros ->].
Qed.

Lemma restore_escape_all (bc : list str) :
  map restore (map escape bc) = bc
  <-> Forall (fun b => contains sentinel b = false
                       /\ contains sentinel_then_slash b = false) bc.
Proof.
  induction bc as [|b bc IH]; simpl.
  - split; [constructor|reflexivity].
  - split.
    + intros [= Hb Hbc]. constructor; [now apply restore_escape|now apply IH].
    + intros H. inversion H as [|? ? Hb Hbc]; subst.
      f_equal; [now apply restore_escape|now apply IH].
Qed.

(** The path of a list of breadcrumbs that is not empty: its parts are
    the escaped breadcrumbs, none of which holds a slash. *)
Lemma relative_path_split (bc : list str) :
  bc <> [] ->
  split slash (relative_path bc) = map escape bc.
Proof.
  intros Hne. unfold relative_path. apply split_join.
  - destruct bc; [congruence|discriminate].
  - apply Forall_map, Forall_forall. intros b _. apply escape_no_slash.
Qed.
End PathFacts.

(** C4, as the code has it. The path of the item made for a valid topic
    is its breadcrumbs, each with every slash replaced by the sentinel,
    joined by slashes; splitting the path at the slashes gives back these
    escaped breadcrumbs, as many as there are breadcrumbs and none with a
    slash inside; and replacing the sentinel by a slash in each of them
    gives back the breadcrumbs exactly when no breadcrumb holds the
    sentinel or the beginning of the sentinel followed by a slash. *)
Theorem path_round_trip (t : json) (item : WorkItem) (rest : list WorkItem) :
  valid_topic t = true ->
  get_all_topics t = Ok (item :: rest) ->
  exists bc,
    topic_breadcrumbs t = Some bc
    /\ path item = join slash (map escape bc)
    /\ split slash (path item) = map escape bc
    /\ length (split slash (path item)) = length bc
    /\ Forall (fun part => contains slash part = false) (split slash (path item))
    /\ (map restore (split slash (path item)) = bc
        <-> Forall (fun b => contains sentinel b = false
                             /\ contains sentinel_then_slash b = false) bc).
Proof.
  intros Hvalid Hget.
  destruct (valid_topic_inv t Hvalid)
    as (d & name & u & subs & -> & _ & _ & Hu & _ & Hs & _ & Hbc).
  rewrite get_all_topics_eq in Hget. unfold getitem in Hget.
  rewrite Hu, Hs in Hget. simpl in Hget.
  destruct (lookup (lit "breadcrumbs") d) as [v|] eqn:Hv; [|discriminate].
  destruct (valid_breadcrumbs_inv v (Hbc v eq_refl)) as (bc & -> & Hne & _).
  simpl in Hget. rewrite as_str_list_strings in Hget. simpl in Hget.
  destruct (flat_map_result get_all_topics subs); [|discriminate].
  simpl in Hget. injection Hget as <- _.
  exists bc. simpl path.
  pose proof (relative_path_split bc Hne) as Hsplit.
  split; [simpl; rewrite Hv; apply strings_of_strings|].
  split; [reflexivity|]. split; [exact Hsplit|].
  split; [now rewrite Hsplit, length_map|].
  split.
  - rewrite Hsplit. apply Forall_map, Forall_forall. intros b _.
    apply contains_slash, escape_no_slash.
  - rewrite Hsplit. apply restore_escape_all.
Qed.

Lemma path_round_trip_witness :
  exists bc,
    topic_breadcrumbs (topic "B" "u2" ["products"; "A/B"]%string [])
    = Some bc
    /\ split slash (lit "products/A_slash_B")
       = map escape bc
    /\ map restore (split slash (lit "products/A_slash_B")) = bc.
Proof.
  destruct (path_round_trip (topic "B" "u2" ["products"; "A/B"]%string [])
              (mkWorkItem (lit "u2") (lit "products/A_slash_B")) [])
    as (bc & Hbc & _ & Hsplit & _ & _ & Hback).
  - vm_compute. reflexivity.
  - vm_compute. reflexivity.
  - exists bc. split; [exact Hbc|]. split; [exact Hsplit|].
    apply Hback.
    assert (bc = [lit "products"; lit "A/B"]) as ->.
    { vm_compute in Hbc. injection Hbc as <-. reflexivity. }
    repeat constructor.
Defined.

(** C4, as stated, fails: a breadcrumb that holds the text of the
    sentinel is left unchanged by the substitution, and the reverse
    substitution turns it into another string. *)
Lemma path_round_trip_counterexample :
  let t := topic "P" "u" ["a_slash_b"]%string [] in
  valid_topic t = true
  /\ topic_breadcrumbs t = Some [lit "a_slash_b"]
  /\ get_all_topics t = Ok [mkWorkItem (lit "u") (lit "a_slash_b")]
  /\ map restore (split slash (lit "a_slash_b")) = [lit "a/b"]
  /\ map restore (split slash (lit "a_slash_b")) <> [lit "a_slash_b"].
Proof.
  repeat split; try (vm_compute; reflexivity).
  vm_compute. discriminate.
Qed.

(** ** Failures *)

Lemma valid_preorder_forest (roots : list json) :
  forallb valid_topic roots = true ->
  forallb valid_topic (preorder_forest roots) = true.
Proof.
  intros H. rewrite forallb_forall in H |- *.
  intros x Hx. apply in_flat_map in Hx as (c & Hc & Hx).
  pose proof (valid_preorder c (H c Hc)) as Hp.
  rewrite forallb_forall in Hp. auto.
Qed.

(** C6. When a node of a valid document has no ["breadcrumbs"] key, the
    flattening raises the [KeyError] of that key instead of making up a
    path, and the run ends with it in the world it started from: nothing
    is printed and no crawler is started. *)
Theorem missing_breadcrumbs_fails (R : Runtime) (args : Args)
  (roots : list json) (w : World R) (t : json) :
  STRUCTURE_SCHEMA (JArr roots) = true ->
  In t (preorder_forest roots) ->
  has_breadcrumbs t = false ->
  flatten (JArr roots) = Raise (KeyError (lit "breadcrumbs"))
  /\ run R args (JArr roots) w
     = mkOutcome R w [] (Raise (KeyError (lit "breadcrumbs")))
  /\ calls (trace (run R args (JArr roots) w)) = []
  /\ exit_status (ending (run R args (JArr roots) w)) <> 0%Z.
Proof.
  intros Hvalid Hin Hno.
  assert (flatten (JArr roots) = Raise (KeyError (lit "breadcrumbs"))) as Hf.
  { pose proof (flattened_structure roots Hvalid) as H.
    unfold flattened in H.
    destruct (forallb has_breadcrumbs (preorder_forest roots)) eqn:Hall;
      [|exact H].
    rewrite forallb_forall in Hall. rewrite (Hall t Hin) in Hno.
    discriminate. }
  assert (run R args (JArr roots) w
          = mkOutcome R w [] (Raise (KeyError (lit "breadcrumbs")))) as Hr.
  { apply run_not_flattened; [exact Hvalid|].
    unfold sorted_topics. now rewrite Hf. }
  split; [exact Hf|]. split; [exact Hr|]. rewrite Hr.
  split; [reflexivity|discriminate].
Qed.

Lemma missing_breadcrumbs_fails_witness :
  run (recording []) (mkArgs (lit "*") 0 1 (lit "out"))
    (JArr [topic "A" "u1" ["products"; "A"]%string
             [topic_without_breadcrumbs "B" "u2" []]]) []
  = mkOutcome (recording []) [] [] (Raise (KeyError (lit "breadcrumbs"))).
Proof.
  apply (missing_breadcrumbs_fails (recording [])
           (mkArgs (lit "*") 0 1 (lit "out"))
           [topic "A" "u1" ["products"; "A"]%string
              [topic_without_breadcrumbs "B" "u2" []]]
           [] (topic_without_breadcrumbs "B" "u2" [])).
  - vm_compute. reflexivity.
  - vm_compute. right. left. reflexivity.
  - vm_compute. reflexivity.
Defined.

(** C9. A node whose ["breadcrumbs"] is present and is an empty array, or
    holds an empty string, makes the document fail validation: the run
    ends with [ValidationError] before anything is flattened, printed or
    started. *)
Theorem empty_breadcrumbs_rejected (R : Runtime) (args : Args)
  (roots : list json) (w : World R) (t : json) (d : dict)
  (items : list json) :
  In t (preorder_forest roots) ->
  t = JObj d ->
  lookup (lit "breadcrumbs") d = Some (JArr items) ->
  items = [] \/ In (JStr []) items ->
  validate (JArr roots) STRUCTURE_SCHEMA = Raise ValidationError
  /\ run R args (JArr roots) w = mkOutcome R w [] (Raise ValidationError).
Proof.
  intros Hin -> Hbc Hitems.
  assert (STRUCTURE_SCHEMA (JArr roots) = false) as Hinvalid.
  { destruct (STRUCTURE_SCHEMA (JArr roots)) eqn:Hvalid; [|reflexivity].
    exfalso. simpl in Hvalid. apply andb_true_iff in Hvalid as [_ Hvalid].
    apply valid_preorder_forest in Hvalid.
    rewrite forallb_forall in Hvalid. specialize (Hvalid _ Hin).
    destruct (valid_topic_inv _ Hvalid)
      as (d' & _ & _ & _ & [= <-] & _ & _ & _ & _ & _ & _ & H).
    specialize (H _ Hbc). simpl in H.
    apply andb_true_iff in H as [Hall Hlen].
    destruct Hitems as [->|Hempty]; [discriminate|].
    rewrite forallb_forall in Hall. specialize (Hall _ Hempty).
    discriminate. }
  split.
  - unfold validate. now rewrite Hinvalid.
  - now apply run_invalid.
Qed.

Lemma empty_breadcrumbs_rejected_witness :
  validate (JArr [topic "A" "u1" ["products"; ""]%string []]) STRUCTURE_SCHEMA
  = Raise ValidationError
  /\ validate (JArr [topic "A" "u1" [] []]) STRUCTURE_SCHEMA
     = Raise ValidationError.
Proof.
  split.
  - eapply (empty_breadcrumbs_rejected (recording [])
              (mkArgs (lit "*") 0 1 (lit "out"))
              [topic "A" "u1" ["products"; ""]%string []] []
              (topic "A" "u1" ["products"; ""]%string [])).
    + vm_compute. left. reflexivity.
    + reflexivity.
    + reflexivity.
    + right. right. left. reflexivity.
  - eapply (empty_breadcrumbs_rejected (recording [])
              (mkArgs (lit "*") 0 1 (lit "out"))
              [topic "A" "u1" [] []] []
              (topic "A" "u1" [] [])).
    + vm_compute. left. reflexivity.
    + reflexivity.
    + reflexivity.
    + left. reflexivity.
Defined.

(** ** The topic range *)

Lemma preamble_without_filtering (R : Runtime) (r : str)
  (topics : list WorkItem) :
  filter (fun e => negb (is_filtering e)) (preamble R r topics)
  = [Print (Found (length topics))].
Proof.
  unfold preamble. rewrite filter_app.
  destruct (PyStr.eqb r (lit "*")); [reflexivity|].
  destruct (parse_range R r) as [[first last]|]; reflexivity.
Qed.

(** C7. The topic range filters nothing: two runs which differ only in
    their well-formed [--topic_range] start the same crawlers in the same
    order, leave the same world, end in the same way, and print the same
    lines but for the line that reports the range. *)
Theorem topic_range_is_noop (R : Runtime) (r1 r2 : str) (gi gc : Z)
  (out_dir : str) (data : json) (w : World R) :
  well_formed_range R r1 = true ->
  well_formed_range R r2 = true ->
  let o1 := run R (mkArgs r1 gi gc out_dir) data w in
  let o2 := run R (mkArgs r2 gi gc out_dir) data w in
  calls (trace o1) = calls (trace o2)
  /\ final_world o1 = final_world o2
  /\ ending o1 = ending o2
  /\ filter (fun e => negb (is_filtering e)) (trace o1)
     = filter (fun e => negb (is_filtering e)) (trace o2).
Proof.
  intros H1 H2 o1 o2. subst o1 o2.
  destruct (STRUCTURE_SCHEMA data) eqn:Hvalid.
  - destruct (sorted_topics data) as [topics|e] eqn:Htopics.
    + rewrite (run_well_formed R (mkArgs r1 gi gc out_dir) data w topics)
        by assumption.
      rewrite (run_well_formed R (mkArgs r2 gi gc out_dir) data w topics)
        by assumption.
      simpl topic_range. simpl group_index. simpl group_count.
      simpl output_dir.
      destruct (current_group topics gi gc) as [group|e]; cbv zeta; simpl.
      * rewrite !calls_app, !calls_preamble, !filter_app,
          !preamble_without_filtering. repeat split; reflexivity.
      * rewrite !calls_preamble, !preamble_without_filtering.
        repeat split; reflexivity.
    + rewrite !(run_not_flattened R _ data w e) by assumption.
      repeat split; reflexivity.
  - rewrite !run_invalid by assumption. repeat split; reflexivity.
Qed.

Lemma topic_range_is_noop_witness :
  calls (trace (run (recording []) (mkArgs (lit "*") 0 1 (lit "out"))
                  example_document []))
  = calls (trace (run (recording []) (mkArgs (lit "7-9") 0 1 (lit "out"))
                    example_document [])).
Proof.
  apply (topic_range_is_noop (recording []) (lit "*") (lit "7-9") 0 1
           (lit "out") example_document []).
  - vm_compute. reflexivity.
  - vm_compute. reflexivity.
Defined.

(** C10. A topic range that is neither ["*"] nor two integer literals
    around one dash ends the run with [ValueError] once the document has
    been validated, flattened and sorted (an exception of these steps
    comes first), before the group is computed: nothing is printed, no
    crawler is started and the world is untouched. *)
Theorem malformed_range_raises (R : Runtime) (args : Args) (data : json)
  (w : World R) :
  well_formed_range R (topic_range args) = false ->
  run R args data w
  = mkOutcome R w []
      (Raise (if STRUCTURE_SCHEMA data
              then match sorted_topics data with
                   | Ok _ => ValueError
                   | Raise e => e
                   end
              else ValidationError)).
Proof.
  intros Hr. destruct (STRUCTURE_SCHEMA data) eqn:Hvalid.
  - destruct (sorted_topics data) as [topics|e] eqn:Htopics.
    + now apply run_malformed_range with (topics := topics).
    + now apply run_not_flattened.
  - now apply run_invalid.
Qed.

Lemma malformed_range_raises_witness :
  run (recording []) (mkArgs (lit "3") 0 1 (lit "out")) example_document []
  = mkOutcome (recording []) [] [] (Raise ValueError)
  /\ run (recording []) (mkArgs (lit "a-b") 0 1 (lit "out")) example_document []
     = mkOutcome (recording []) [] [] (Raise ValueError)
  /\ run (recording []) (mkArgs (lit "1-2-3") 0 0 (lit "out"))
       example_document []
     = mkOutcome (recording []) [] [] (Raise ValueError).
Proof.
  split; [|split].
  - apply (malformed_range_raises (recording [])
             (mkArgs (lit "3") 0 1 (lit "out")) example_document []).
    vm_compute. reflexivity.
  - apply (malformed_range_raises (recording [])
             (mkArgs (lit "a-b") 0 1 (lit "out")) example_document []).
    vm_compute. reflexivity.
  - apply (malformed_range_raises (recording [])
             (mkArgs (lit "1-2-3") 0 0 (lit "out")) example_document []).
    vm_compute. reflexivity.
Defined.

(** ** Dispatch *)

(** C8. A document that fails validation ends the run with a non-zero
    exit status before anything else happens.  When the crawler of an item
    of the batch exits with a non-zero code, after the crawlers of the
    items before it succeeded, the run ends there with
    [CalledProcessError]: the crawlers started are those of these items
    and no other, the world is the one these crawlers left, and the exit
    status is not zero. *)
Theorem failure_aborts (R : Runtime) (args : Args) (data : json)
  (w : World R) :
  (STRUCTURE_SCHEMA data = false ->
   let o := run R args data w in
   ending o = Raise ValidationError
   /\ trace o = []
   /\ final_world o = w
   /\ exit_status (ending o) <> 0%Z)
  /\ (forall topics pre x post,
        STRUCTURE_SCHEMA data = true ->
        sorted_topics data = Ok topics ->
        well_formed_range R (topic_range args) = true ->
        current_group topics (group_index args) (group_count args)
        = Ok (pre ++ x :: post) ->
        all_succeed R (output_dir args) w pre = true ->
        exit_code R (output_dir args) (crawl_all R (output_dir args) w pre) x
        <> 0%Z ->
        let o := run R args data w in
        ending o
        = Raise (CalledProcessError
                   (exit_code R (output_dir args)
                      (crawl_all R (output_dir args) w pre) x))
        /\ calls (trace o) = map (call_of (output_dir args)) (pre ++ [x])
        /\ final_world o = crawl_all R (output_dir args) w (pre ++ [x])
        /\ exit_status (ending o) <> 0%Z).
Proof.
  split.
  - intros Hinvalid o. subst o. rewrite run_invalid by assumption.
    repeat split. discriminate.
  - intros topics pre x post Hvalid Htopics Hrange Hgroup Hpre Hx o. subst o.
    rewrite (run_well_formed R args data w topics) by assumption.
    rewrite Hgroup. cbv zeta.
    rewrite (dispatch_first_failure R (output_dir args) pre post x w Hpre Hx).
    simpl. rewrite rev_involutive, calls_app, calls_preamble,
      calls_dispatch_events.
    repeat split. discriminate.
Qed.

Lemma failure_aborts_witness :
  let R := recording [lit "u2"] in
  let o := run R (mkArgs (lit "*") 0 1 (lit "out"))
             (JArr [topic "A" "u1" ["a"]%string [];
                    topic "B" "u2" ["b"]%string [];
                    topic "C" "u3" ["c"]%string []]) [] in
  ending o = Raise (CalledProcessError 1)
  /\ calls (trace o) = [(lit "u1", lit "out/a"); (lit "u2", lit "out/b")]
  /\ final_world o = [(lit "u1", lit "out/a"); (lit "u2", lit "out/b")].
Proof.
  intros R o.
  destruct (failure_aborts R (mkArgs (lit "*") 0 1 (lit "out"))
              (JArr [topic "A" "u1" ["a"]%string [];
                     topic "B" "u2" ["b"]%string [];
                     topic "C" "u3" ["c"]%string []]) []) as [_ H].
  destruct (H [mkWorkItem (lit "u1") (lit "a");
               mkWorkItem (lit "u2") (lit "b");
               mkWorkItem (lit "u3") (lit "c")]
              [mkWorkItem (lit "u1") (lit "a")]
              (mkWorkItem (lit "u2") (lit "b"))
              [mkWorkItem (lit "u3") (lit "c")])
    as (He & Hc & Hw & _).
  - vm_compute. reflexivity.
  - vm_compute. reflexivity.
  - vm_compute. reflexivity.
  - vm_compute. reflexivity.
  - vm_compute. reflexivity.
  - vm_compute. discriminate.
  - split; [exact He|]. split; [exact Hc|exact Hw].
Defined.

(** * Further properties of batch.py *)

(** ** Batches for any indices *)

Lemma slice_contiguous {A} (l : list A) (lo hi : Z) :
  exists pre post, l = pre ++ slice l lo hi ++ post.
Proof.
  unfold slice. cbv zeta.
  set (a := Z.to_nat (adjust_index (Z.of_nat (length l)) lo)).
  set (n := Z.to_nat (adjust_index (Z.of_nat (length l)) hi
                      - adjust_index (Z.of_nat (length l)) lo)).
  exists (firstn a l), (skipn n (skipn a l)).
  now rewrite firstn_skipn, firstn_skipn.
Qed.

(** X1. Whatever the group index and the group count, negative ones
    included, the batch that is selected is a run of consecutive topics of
    the sorted sequence: no index makes a batch repeat, reorder or invent
    a topic. *)
Theorem batch_is_contiguous {A} (topics batch : list A) (gi gc : Z) :
  current_group topics gi gc = Ok batch ->
  exists pre post, topics = pre ++ batch ++ post.
Proof.
  unfold current_group.
  destruct (batch_size (Z.of_nat (length topics)) gc) as [b|e];
    [|discriminate].
  simpl. intros [= <-]. apply slice_contiguous.
Qed.

Lemma batch_is_contiguous_witness :
  exists pre post,
    [1; 2; 3; 4; 5; 6; 7; 8; 9; 10]%nat = pre ++ [3; 4; 5; 6]%nat ++ post.
Proof.
  apply (@batch_is_contiguous nat [1; 2; 3; 4; 5; 6; 7; 8; 9; 10]%nat
           [3; 4; 5; 6]%nat (-2) 3).
  reflexivity.
Defined.

(** X2. For a group count of at least 1, the batch of group [i >= 0] has
    [min (batch_size, max (0, T - i * batch_size))] items: every batch is
    full until the topics run out, the next one takes what is left, and
    the batches after it are empty. *)
Theorem batch_length {A} (topics : list A) (i gc : Z) :
  (1 <= gc)%Z -> (0 <= i)%Z ->
  let T := Z.of_nat (length topics) in
  exists b batch,
    batch_size T gc = Ok b
    /\ current_group topics i gc = Ok batch
    /\ Z.of_nat (length batch) = Z.min b (Z.max 0 (T - i * b)).
Proof.
  intros Hgc Hi T.
  destruct (batch_size_ceiling T gc) as (b & Hb & [Hlo Hhi] & _);
    [subst T; lia|assumption|].
  assert (0 <= b)%Z as Hb0 by (subst T; nia).
  exists b. eexists. split; [exact Hb|]. split.
  - apply (current_group_chunk topics i gc b Hb Hb0 Hi).
  - rewrite length_firstn, length_skipn.
    rewrite <- Z2Nat.inj_mul by lia. subst T.
    destruct (Z.le_gt_cases (Z.of_nat (length topics)) (i * b)); nia.
Qed.

Lemma batch_length_witness :
  exists b batch,
    batch_size 5 3 = Ok b
    /\ current_group [1; 2; 3; 4; 5]%nat 2 3 = Ok batch
    /\ Z.of_nat (length batch) = Z.min b (Z.max 0 (5 - 2 * b)).
Proof.
  apply (@batch_length nat [1; 2; 3; 4; 5]%nat 2 3); lia.
Defined.

(** ** Runs that reach the dispatch *)

Section MoreRunFacts.
Variable R : Runtime.
Implicit Types (w : World R) (args : Args) (data : json).

Lemma exit_status_zero (r : result unit) : exit_status r = 0%Z <-> r = Ok tt.
Proof.
  destruct r as [[]|e]; simpl; split; try reflexivity; discriminate.
Qed.

(** X3. With a group count of 0 the run passes validation, flattening and
    the parsing of the range, prints the number of topics, and then ends
    with [ZeroDivisionError]: no crawler is started and the exit status
    is 1. *)
Theorem zero_group_count_raises args data w (topics : list WorkItem) :
  STRUCTURE_SCHEMA data = true ->
  sorted_topics data = Ok topics ->
  well_formed_range R (topic_range args) = true ->
  group_count args = 0%Z ->
  run R args data w
  = mkOutcome R w (preamble R (topic_range args) topics)
      (Raise ZeroDivisionError)
  /\ calls (trace (run R args data w)) = []
  /\ exit_status (ending (run R args data w)) = 1%Z.
Proof.
  intros Hvalid Htopics Hrange Hgc.
  assert (run R args data w
          = mkOutcome R w (preamble R (topic_range args) topics)
              (Raise ZeroDivisionError)) as Hrun.
  { rewrite (run_well_formed R args data w topics) by assumption.
    unfold current_group, batch_size. rewrite Hgc. reflexivity. }
  rewrite Hrun. simpl. rewrite calls_preamble. repeat split.
Qed.

Lemma processed_app (t1 t2 : list event) :
  processed (t1 ++ t2) = processed t1 ++ processed t2.
Proof. unfold processed. apply flat_map_app. Qed.

Lemma processed_preamble (r : str) (topics : list WorkItem) :
  processed (preamble R r topics) = [].
Proof.
  unfold preamble. rewrite processed_app.
  destruct (PyStr.eqb r (lit "*")); [reflexivity|].
  destruct (parse_range R r) as [[a b]|]; reflexivity.
Qed.

Lemma processed_dispatch_events (out_dir : str) (items : list WorkItem) :
  processed (dispatch_events out_dir items) = map path items.
Proof.
  induction items as [|t items IH]; simpl; [reflexivity|].
  f_equal. exact IH.
Qed.

Lemma run_all_succeed args data w (topics group : list WorkItem) :
  STRUCTURE_SCHEMA data = true ->
  sorted_topics data = Ok topics ->
  well_formed_range R (topic_range args) = true ->
  current_group topics (group_index args) (group_count args) = Ok group ->
  all_succeed R (output_dir args) w group = true ->
  run R args data w
  = mkOutcome R (crawl_all R (output_dir args) w group)
      (preamble R (topic_range args) topics
       ++ dispatch_events (output_dir args) group)
      (Ok tt).
Proof.
  intros Hvalid Htopics Hrange Hgroup Hall.
  rewrite (run_well_formed R args data w topics) by assumption.
  rewrite Hgroup. cbv zeta.
  rewrite (dispatch_all_succeed R (output_dir args) group w Hall).
  simpl. now rewrite rev_involutive.
Qed.

(** What a dispatch does, whatever the crawlers answer: it runs the
    crawlers of the first topics of the group, and ends either after the
    last topic or with the failure of the last crawler it ran. *)
Lemma dispatch_outcome (out_dir : str) (group : list WorkItem) w :
  exists done rest,
    group = done ++ rest
    /\ rev (events (fst (dispatch out_dir group (mkState R w []))))
       = dispatch_events out_dir done
    /\ world (fst (dispatch out_dir group (mkState R w [])))
       = crawl_all R out_dir w done
    /\ (snd (dispatch out_dir group (mkState R w [])) = Ok tt /\ rest = []
        \/ exists code,
             code <> 0%Z
             /\ snd (dispatch out_dir group (mkState R w []))
                = Raise (CalledProcessError code)).
Proof.
  revert w. induction group as [|t group IH]; intros w.
  - exists [], []. repeat split. now left.
  - rewrite dispatch_cons. cbv zeta. simpl world. simpl events.
    destruct (Z.eqb_spec
                (snd (crawl R w (url t) (path_join out_dir (path t)))) 0)
      as [E|E].
    + rewrite dispatch_frame. cbv zeta.
      destruct (IH (fst (crawl R w (url t) (path_join out_dir (path t)))))
        as (done & rest & -> & Hev & Hw & Hend).
      exists (t :: done), rest. simpl fst. simpl snd. simpl events.
      simpl world. split; [reflexivity|]. split; [|split].
      * rewrite rev_app_distr, Hev. reflexivity.
      * rewrite Hw. reflexivity.
      * exact Hend.
    + exists [t], group. simpl. repeat split. right.
      eexists. split; [exact E|reflexivity].
Qed.


(** X5. A run whose group index is at least its group count (itself at
    least 1) has an empty batch: it prints the number of topics, starts no
    crawler, leaves the world as it is and exits with status 0. *)
Theorem idle_group args data w (topics : list WorkItem) :
  STRUCTURE_SCHEMA data = true ->
  sorted_topics data = Ok topics ->
  well_formed_range R (topic_range args) = true ->
  (1 <= group_count args <= group_index args)%Z ->
  current_group topics (group_index args) (group_count args) = Ok []
  /\ run R args data w
     = mkOutcome R w (preamble R (topic_range args) topics) (Ok tt).
Proof.
  intros Hvalid Htopics Hrange [Hgc Hgi].
  assert (current_group topics (group_index args) (group_count args) = Ok [])
    as Hgroup.
  { destruct (batch_size_ceiling (Z.of_nat (length topics)) (group_count args))
      as (b & Hb & [Hlo Hhi] & _); [lia|assumption|].
    assert (0 <= b)%Z as Hb0 by nia.
    rewrite (current_group_chunk topics _ _ b Hb Hb0) by lia.
    f_equal. rewrite skipn_all2; [apply firstn_nil|].
    rewrite <- Z2Nat.inj_mul by lia. apply Nat2Z.inj_le.
    rewrite Z2Nat.id by nia. nia. }
  split; [exact Hgroup|].
  rewrite (run_well_formed R args data w topics) by assumption.
  rewrite Hgroup. cbv zeta. simpl. now rewrite app_nil_r.
Qed.
End MoreRunFacts.

Lemma zero_group_count_raises_witness :
  run (recording []) (mkArgs (lit "2-5") 0 0 (lit "out")) example_document []
  = mkOutcome (recording []) []
      [Print (Filtering 2 5); Print (Found 2)] (Raise ZeroDivisionError).
Proof.
  apply (zero_group_count_raises (recording [])
           (mkArgs (lit "2-5") 0 0 (lit "out")) example_document []
           [mkWorkItem (lit "u1") (lit "products/A");
            mkWorkItem (lit "u2") (lit "products/A/B")]).
  - vm_compute. reflexivity.
  - vm_compute. reflexivity.
  - vm_compute. reflexivity.
  - reflexivity.
Defined.


Lemma idle_group_witness :
  run (recording []) (mkArgs (lit "*") 5 2 (lit "out")) example_document []
  = mkOutcome (recording []) [] [Print (Found 2)] (Ok tt).
Proof.
  apply (idle_group (recording []) (mkArgs (lit "*") 5 2 (lit "out"))
           example_document []
           [mkWorkItem (lit "u1") (lit "products/A");
            mkWorkItem (lit "u2") (lit "products/A/B")]).
  - vm_compute. reflexivity.
  - vm_compute. reflexivity.
  - vm_compute. reflexivity.
  - simpl. lia.
Defined.

(** ** What every run does *)

Lemma StronglySorted_app_inv {A} (Rel : A -> A -> Prop) (l1 l2 : list A) :
  StronglySorted Rel (l1 ++ l2) ->
  StronglySorted Rel l1 /\ StronglySorted Rel l2.
Proof.
  induction l1 as [|x l1 IH]; simpl; intros H.
  - split; [constructor|exact H].
  - inversion H as [|? ? Hs Hall]; subst.
    destruct (IH Hs) as [H1 H2]. split; [|exact H2].
    constructor; [exact H1|].
    apply Forall_app in Hall. tauto.
Qed.

Lemma current_group_zero_division {A} (topics : list A) (gi gc : Z) (e : exn) :
  current_group topics gi gc = Raise e -> e = ZeroDivisionError /\ gc = 0%Z.
Proof.
  unfold current_group, batch_size.
  destruct (Z.eqb_spec gc 0); simpl; [|discriminate].
  intros [= <-]. split; [reflexivity|assumption].
Qed.

Lemma schema_array (data : json) :
  STRUCTURE_SCHEMA data = true -> exists roots, data = JArr roots.
Proof.
  destruct data; try discriminate. intros _. eexists. reflexivity.
Qed.

Section EveryRun.
Variable R : Runtime.
Implicit Types (w : World R) (args : Args) (data : json).



Lemma all_succeed_always (out_dir : str) w (items : list WorkItem) :
  (forall w' u o, snd (crawl R w' u o) = 0%Z) ->
  all_succeed R out_dir w items = true.
Proof.
  intros Hzero. revert w. induction items as [|t items IH]; intros w.
  - reflexivity.
  - simpl. unfold exit_code. rewrite Hzero, IH. reflexivity.
Qed.

End EveryRun.



(** ** Output directories *)

Lemma relative_path_head (bc : list str) :
  bc <> [] -> Forall (fun b => b <> []) bc ->
  exists c rest, relative_path bc = c :: rest /\ c <> 47%N.
Proof.
  intros Hne Hall. destruct Hall as [|b bc Hb Hall]; [now elim Hne|].
  destruct b as [|c b]; [now elim Hb|].
  assert (exists c' rest', escape (c :: b) = c' :: rest' /\ c' <> 47%N)
    as (c' & rest' & He & Hc').
  { rewrite escape_cons. destruct (N.eqb_spec 47%N c) as [E|E].
    - rewrite sentinel_chars. eexists _, _. split; [reflexivity|discriminate].
    - eexists _, _. split; [reflexivity|congruence]. }
  unfold relative_path. simpl map. destruct (map escape bc) as [|q qs].
  - simpl. rewrite He. eauto.
  - change (join slash (escape (c :: b) :: q :: qs))
      with (escape (c :: b) ++ slash ++ join slash (q :: qs)).
    rewrite He. simpl. eauto.
Qed.

(** The work item of a valid topic has the path of a list of breadcrumbs
    that is not empty and has no empty breadcrumb. *)
Lemma work_item_path (t : json) (item : WorkItem) :
  valid_topic t = true -> work_item t = Some item ->
  exists bc,
    path item = relative_path bc /\ bc <> [] /\ Forall (fun b => b <> []) bc.
Proof.
  intros Hvalid Hitem.
  destruct (valid_topic_inv t Hvalid)
    as (d & name & u & subs & -> & _ & _ & Hu & _ & _ & _ & Hbc).
  unfold work_item in Hitem. simpl in Hitem. rewrite Hu in Hitem.
  destruct (lookup (lit "breadcrumbs") d) as [v|] eqn:Hv; [|discriminate].
  destruct (valid_breadcrumbs_inv v (Hbc v eq_refl)) as (bc & -> & Hne & Hall).
  rewrite strings_of_strings in Hitem. injection Hitem as <-.
  exists bc. repeat split; assumption.
Qed.

(** X9. The output directory given to a crawler is always inside
    [output_dir]: the path of a topic of a valid document is not empty and
    does not begin with a slash, so [os.path.join] never drops
    [output_dir]; it appends the path, after a slash unless [output_dir]
    is empty or ends with one. *)
Theorem output_under_output_dir (roots : list json) (items : list WorkItem)
  (item : WorkItem) (out_dir : str) :
  STRUCTURE_SCHEMA (JArr roots) = true ->
  flatten (JArr roots) = Ok items ->
  In item items ->
  path item <> []
  /\ startswith slash (path item) = false
  /\ path_join out_dir (path item)
     = out_dir
       ++ (if match out_dir with [] => true | _ => endswith_slash out_dir end
           then [] else slash)
       ++ path item.
Proof.
  intros Hvalid Hflat Hin.
  pose proof (flattened_structure roots Hvalid) as H.
  unfold flattened in H. rewrite Hflat in H.
  destruct (forallb has_breadcrumbs (preorder_forest roots)); [|discriminate].
  destruct H as (items' & [= <-] & Hmap).
  assert (In (Some item) (map work_item (preorder_forest roots))) as Hnode.
  { rewrite <- Hmap. now apply in_map. }
  apply in_map_iff in Hnode as (t & Ht & Hin').
  simpl in Hvalid. apply andb_true_iff in Hvalid as [_ Hvalid].
  apply valid_preorder_forest in Hvalid.
  rewrite forallb_forall in Hvalid.
  destruct (work_item_path t item (Hvalid t Hin') Ht) as (bc & Hp & Hne & Hall).
  destruct (relative_path_head bc Hne Hall) as (c & rest & Hc & Hnot).
  rewrite Hp, Hc.
  assert (startswith slash (c :: rest) = false) as Hs.
  { change (startswith slash (c :: rest)) with (char_eqb 47%N c && true).
    unfold char_eqb. destruct (N.eqb_spec 47%N c); [congruence|reflexivity]. }
  split; [discriminate|]. split; [exact Hs|].
  unfold path_join. rewrite Hs.
  destruct (match out_dir with [] => true | _ :: _ => endswith_slash out_dir end);
    reflexivity.
Qed.

Lemma output_under_output_dir_witness :
  path_join (lit "/data/out") (lit "products/A/B")
  = lit "/data/out" ++ slash ++ lit "products/A/B".
Proof.
  apply (output_under_output_dir
           [topic "A" "u1" ["products"; "A"]%string
              [topic "B" "u2" ["products"; "A"; "B"]%string []]]
           [mkWorkItem (lit "u1") (lit "products/A");
            mkWorkItem (lit "u2") (lit "products/A/B")]
           (mkWorkItem (lit "u2") (lit "products/A/B")) (lit "/data/out")).
  - vm_compute. reflexivity.
  - vm_compute. reflexivity.
  - right. left. reflexivity.
Defined.

(** ** The schema, key by key *)

Lemma valid_node (roots : list json) (t : json) :
  STRUCTURE_SCHEMA (JArr roots) = true ->
  In t (preorder_forest roots) -> valid_topic t = true.
Proof.
  simpl. rewrite andb_true_iff. intros [_ Hvalid] Hin.
  apply valid_preorder_forest in Hvalid.
  rewrite forallb_forall in Hvalid. auto.
Qed.

Lemma rejected (R : Runtime) (args : Args) (data : json) (w : World R) :
  STRUCTURE_SCHEMA data <> true ->
  validate data STRUCTURE_SCHEMA = Raise ValidationError
  /\ run R args data w = mkOutcome R w [] (Raise ValidationError).
Proof.
  intros H. destruct (STRUCTURE_SCHEMA data) eqn:E; [now elim H|].
  split; [unfold validate; now rewrite E|now apply run_invalid].
Qed.

(** X10. A node of the document, at any depth, that has a key other than
    ["name"], ["sub_topics"], ["url"] and ["breadcrumbs"] makes the
    validation fail: the run ends with [ValidationError] before anything
    is flattened, printed or started. *)
Theorem unknown_key_rejected (R : Runtime) (args : Args)
  (roots : list json) (w : World R) (t : json) (d : dict) (k : str)
  (v : json) :
  In t (preorder_forest roots) ->
  t = JObj d ->
  In (k, v) d ->
  ~ In k topic_keys ->
  validate (JArr roots) STRUCTURE_SCHEMA = Raise ValidationError
  /\ run R args (JArr roots) w = mkOutcome R w [] (Raise ValidationError).
Proof.
  intros Hin -> Hk Hnot. apply rejected. intros Hvalid.
  pose proof (valid_node roots _ Hvalid Hin) as Ht.
  rewrite valid_topic_eq, !andb_true_iff in Ht. destruct Ht as [_ Hall].
  rewrite forallb_forall in Hall. specialize (Hall _ Hk). simpl in Hall.
  unfold valid_property in Hall.
  destruct (PyStr.eqb k (lit "name")) eqn:E1;
    [apply eqb_eq in E1; apply Hnot; subst; simpl; tauto|].
  destruct (PyStr.eqb k (lit "sub_topics")) eqn:E2;
    [apply eqb_eq in E2; apply Hnot; subst; simpl; tauto|].
  destruct (PyStr.eqb k (lit "url")) eqn:E3;
    [apply eqb_eq in E3; apply Hnot; subst; simpl; tauto|].
  destruct (PyStr.eqb k (lit "breadcrumbs")) eqn:E4;
    [apply eqb_eq in E4; apply Hnot; subst; simpl; tauto|].
  discriminate.
Qed.

Lemma unknown_key_rejected_witness :
  validate
    (JArr [JObj [(lit "name", JStr (lit "A"));
                 (lit "sub_topics", JArr []);
                 (lit "url", JStr (lit "u1"));
                 (lit "description", JStr (lit "boards"))]])
    STRUCTURE_SCHEMA
  = Raise ValidationError.
Proof.
  eapply (unknown_key_rejected (recording [])
            (mkArgs (lit "*") 0 1 (lit "out"))
            [JObj [(lit "name", JStr (lit "A"));
                   (lit "sub_topics", JArr []);
                   (lit "url", JStr (lit "u1"));
                   (lit "description", JStr (lit "boards"))]] []
            _ _ (lit "description") (JStr (lit "boards"))).
  - vm_compute. left. reflexivity.
  - reflexivity.
  - right. right. right. left. reflexivity.
  - vm_compute. intros [H|[H|[H|[H|[]]]]]; discriminate.
Defined.

(** X11. A node of the document, at any depth, that has no ["name"], no
    ["sub_topics"] or no ["url"] makes the validation fail in the same
    way: the three keys are required of every node, not only of the
    roots. *)
Theorem missing_required_key_rejected (R : Runtime) (args : Args)
  (roots : list json) (w : World R) (t : json) (d : dict) (k : str) :
  In t (preorder_forest roots) ->
  t = JObj d ->
  In k [lit "name"; lit "sub_topics"; lit "url"] ->
  lookup k d = None ->
  validate (JArr roots) STRUCTURE_SCHEMA = Raise ValidationError
  /\ run R args (JArr roots) w = mkOutcome R w [] (Raise ValidationError).
Proof.
  intros Hin -> Hk Hnone. apply rejected. intros Hvalid.
  destruct (valid_topic_inv _ (valid_node roots _ Hvalid Hin))
    as (d' & name & u & subs & [= <-] & Hn & _ & Hu & _ & Hs & _).
  destruct Hk as [<-|[<-|[<-|[]]]]; congruence.
Qed.

Lemma missing_required_key_rejected_witness :
  validate
    (JArr [topic "A" "u1" ["a"]%string
             [JObj [(lit "name", JStr (lit "B"));
                    (lit "sub_topics", JArr [])]]])
    STRUCTURE_SCHEMA
  = Raise ValidationError.
Proof.
  eapply (missing_required_key_rejected (recording [])
            (mkArgs (lit "*") 0 1 (lit "out"))
            [topic "A" "u1" ["a"]%string
               [JObj [(lit "name", JStr (lit "B"));
                      (lit "sub_topics", JArr [])]]] []
            _ _ (lit "url")).
  - vm_compute. right. left. reflexivity.
  - reflexivity.
  - right. right. left. reflexivity.
  - vm_compute. reflexivity.
Defined.

(** ** The ranges that are accepted *)

Section SplitChar.
Variable c : char.

Lemma split_char_plain (cur p : str) :
  ~ In c p -> split_from [c] 0 cur p = [rev cur ++ p].
Proof.
  revert cur. induction p as [|x p IH]; intros cur Hp; simpl.
  - now rewrite app_nil_r.
  - unfold char_eqb. destruct (N.eqb_spec c x) as [E|E]; simpl.
    + elim Hp. now left.
    + rewrite IH by (intros H; apply Hp; now right).
      simpl. now rewrite <- app_assoc.
Qed.

Lemma split_char_sep (cur p rest : str) :
  ~ In c p ->
  split_from [c] 0 cur (p ++ c :: rest)
  = (rev cur ++ p) :: split_from [c] 0 [] rest.
Proof.
  revert cur. induction p as [|x p IH]; intros cur Hp; simpl.
  - unfold char_eqb. rewrite N.eqb_refl. simpl. now rewrite app_nil_r.
  - unfold char_eqb. destruct (N.eqb_spec c x) as [E|E]; simpl.
    + elim Hp. now left.
    + rewrite IH by (intros H; apply Hp; now right).
      simpl. now rewrite <- app_assoc.
Qed.

Lemma first_occurrence (s : str) :
  ~ In c s \/ exists a rest, s = a ++ c :: rest /\ ~ In c a.
Proof.
  induction s as [|x s IH].
  - left. simpl. tauto.
  - destruct (N.eq_dec c x) as [<-|E].
    + right. exists [], s. split; [reflexivity|simpl; tauto].
    + destruct IH as [IH|(a & rest & -> & Ha)].
      * left. simpl. intros [H|H]; [congruence|tauto].
      * right. exists (x :: a), rest. split; [reflexivity|].
        simpl. intros [H|H]; [congruence|tauto].
Qed.

Lemma split_from_not_nil (sep : str) (skip : nat) (cur s : str) :
  split_from sep skip cur s <> [].
Proof.
  revert skip cur. induction s as [|x s IH]; intros skip cur; simpl.
  - discriminate.
  - destruct skip; [|apply IH].
    destruct (startswith sep (x :: s)); [discriminate|apply IH].
Qed.

(** [s.split(c)] returns two parts exactly when [s] has the separator
    once, and the parts are then what stands before and after it. *)
Lemma split_two (s a b : str) :
  split [c] s = [a; b] <-> s = a ++ c :: b /\ ~ In c a /\ ~ In c b.
Proof.
  unfold split. split.
  - intros H. destruct (first_occurrence s) as [Hs|(a' & rest & -> & Ha')].
    + rewrite split_char_plain in H by assumption. discriminate.
    + rewrite split_char_sep in H by assumption. simpl in H.
      injection H as -> H.
      destruct (first_occurrence rest) as [Hr|(a'' & rest' & -> & Ha'')].
      * rewrite split_char_plain in H by assumption. simpl in H.
        injection H as ->. tauto.
      * rewrite split_char_sep in H by assumption. injection H as _ H.
        now apply split_from_not_nil in H.
  - intros (-> & Ha & Hb).
    rewrite split_char_sep by assumption.
    now rewrite split_char_plain by assumption.
Qed.
End SplitChar.

(** X12. The ranges the script accepts, besides ["*"]: the text before
    the only dash and the text after it are both read by [int], and these
    are the two bounds.  So a range with a second dash is refused, a
    negative bound among them. *)
Theorem parse_range_accepts (R : Runtime) (r : str) (first last : Z) :
  parse_range R r = Ok (first, last)
  <-> exists a b,
        r = a ++ dash :: b
        /\ ~ In dash a /\ ~ In dash b
        /\ py_int R a = Some first /\ py_int R b = Some last.
Proof.
  unfold parse_range. change (lit "-") with [dash]. split.
  - destruct (split [dash] r) as [|a [|b [|x l]]] eqn:Hsplit;
      try discriminate.
    apply split_two in Hsplit as (-> & Ha & Hb).
    destruct (py_int R a) as [x|] eqn:Hx; [|discriminate].
    destruct (py_int R b) as [y|] eqn:Hy; [|discriminate].
    intros [= <- <-]. exists a, b. tauto.
  - intros (a & b & -> & Ha & Hb & Hx & Hy).
    assert (split [dash] (a ++ dash :: b) = [a; b]) as ->
      by (apply split_two; tauto).
    now rewrite Hx, Hy.
Qed.

(** * Properties of get_structure.py *)

(** ** The dicts it builds *)

Section TopicDict.
Variables (name : str) (subs : list json) (bc : list str) (u : str).

Lemma sub_topics_topic_dict : sub_topics_of (topic_dict name subs bc u) = subs.
Proof. reflexivity. Qed.

Lemma preorder_topic_dict :
  preorder (topic_dict name subs bc u)
  = topic_dict name subs bc u :: preorder_forest subs.
Proof. now rewrite preorder_eq, sub_topics_topic_dict. Qed.

Lemma has_breadcrumbs_topic_dict :
  has_breadcrumbs (topic_dict name subs bc u) = true.
Proof. reflexivity. Qed.

Lemma topic_breadcrumbs_topic_dict :
  topic_breadcrumbs (topic_dict name subs bc u) = Some bc.
Proof.
  change (topic_breadcrumbs (topic_dict name subs bc u))
    with (strings_of (map JStr bc)).
  apply strings_of_strings.
Qed.

Lemma work_item_topic_dict :
  work_item (topic_dict name subs bc u)
  = Some (mkWorkItem u (relative_path bc)).
Proof.
  unfold work_item. rewrite topic_breadcrumbs_topic_dict. reflexivity.
Qed.

Lemma get_all_topics_topic_dict :
  get_all_topics (topic_dict name subs bc u)
  = (descendants <- flat_map_result get_all_topics subs ;;
     Ok (mkWorkItem u (relative_path bc) :: descendants)).
Proof.
  unfold topic_dict. rewrite get_all_topics_eq.
  change (getitem (lit "url") _) with (@Ok json (JStr u)).
  change (getitem (lit "breadcrumbs") _) with (@Ok json (JArr (map JStr bc))).
  change (getitem (lit "sub_topics") _) with (@Ok json (JArr subs)).
  simpl. rewrite as_str_list_strings. reflexivity.
Qed.

Lemma truthy_length (s : str) : (1 <=? length s)%nat = truthy s.
Proof. destruct s; reflexivity. Qed.

Lemma truthy_iff (s : str) : truthy s = true <-> s <> [].
Proof. destruct s; simpl; split; congruence. Qed.

Lemma valid_breadcrumbs_strings :
  valid_breadcrumbs (JArr (map JStr bc)) = true
  <-> bc <> [] /\ Forall (fun b => b <> []) bc.
Proof.
  simpl. rewrite andb_true_iff, length_map.
  assert (forallb valid_nonempty_string (map JStr bc) = forallb truthy bc)
    as ->.
  { clear. induction bc as [|b l IH]; [reflexivity|].
    simpl map. simpl forallb. rewrite IH. now destruct b. }
  rewrite forallb_forall, Forall_forall. split.
  - intros [Hall Hlen]. split.
    + destruct bc; [discriminate|congruence].
    + intros b Hb. now apply truthy_iff, Hall.
  - intros [Hne Hall]. split.
    + intros b Hb. now apply truthy_iff, Hall.
    + destruct bc; [congruence|reflexivity].
Qed.

Lemma valid_topic_topic_dict :
  valid_topic (topic_dict name subs bc u) = true
  <-> name <> [] /\ forallb valid_topic subs = true
      /\ (bc <> [] /\ Forall (fun b => b <> []) bc) /\ u <> [].
Proof.
  change (valid_topic (topic_dict name subs bc u))
    with (valid_nonempty_string (JStr name)
          && (forallb valid_topic subs
              && (valid_breadcrumbs (JArr (map JStr bc))
                  && (valid_nonempty_string (JStr u) && true)))).
  rewrite !andb_true_iff, valid_breadcrumbs_strings.
  change (valid_nonempty_string (JStr name)) with (1 <=? length name)%nat.
  change (valid_nonempty_string (JStr u)) with (1 <=? length u)%nat.
  rewrite !truthy_length, !truthy_iff.
  tauto.
Qed.
End TopicDict.

(** ** The structure it builds *)

Section Structure.
Variable L : Library.

Lemma products_not_empty : lit "products" <> [].
Proof. now vm_compute. Qed.

Lemma extract_related_products_eq (topic_url topic_name : str)
  (elements : list ProductElement) :
  extract_related_products L topic_url topic_name elements
  = map (product_topic L topic_url topic_name)
      (flat_map (fun e => match kept e with Some x => [x] | None => [] end)
         elements).
Proof.
  induction elements as [|e elements IH]; [reflexivity|].
  simpl extract_related_products. simpl flat_map.
  rewrite map_app, <- IH. unfold kept.
  destruct (href e) as [product_url|]; [|reflexivity].
  destruct (truthy product_url), (product_heading e); reflexivity.
Qed.

Lemma main_topic_eq (page_url : str) (topic : TopicElement) :
  main_topic L page_url topic
  = topic_dict
      (if truthy (section_name L topic) then section_name L topic
       else lit "top products")
      (map (product_topic L page_url (section_name L topic))
         (kept_products topic))
      (if truthy (section_name L topic)
       then [lit "products"; section_name L topic]
       else [lit "products"])
      page_url.
Proof.
  unfold main_topic, kept_products. cbv zeta.
  now rewrite extract_related_products_eq.
Qed.

Lemma flat_map_result_cons {A B} (f : A -> result (list B)) (x : A)
  (xs : list A) :
  flat_map_result f (x :: xs)
  = (ys <- f x ;; rest <- flat_map_result f xs ;; Ok (ys ++ rest)).
Proof. reflexivity. Qed.

Lemma product_topic_leaf (topic_url topic_name : str) (x : str * str) :
  exists item,
    preorder (product_topic L topic_url topic_name x)
    = [product_topic L topic_url topic_name x]
    /\ get_all_topics (product_topic L topic_url topic_name x) = Ok [item]
    /\ work_item (product_topic L topic_url topic_name x) = Some item.
Proof.
  unfold product_topic. cbv zeta.
  rewrite preorder_topic_dict, get_all_topics_topic_dict,
    work_item_topic_dict.
  eexists. repeat split.
Qed.

(** The products are leaves, each with its breadcrumbs. *)
Lemma flatten_products (topic_url topic_name : str) (xs : list (str * str)) :
  let ts := map (product_topic L topic_url topic_name) xs in
  preorder_forest ts = ts
  /\ exists items,
       flat_map_result get_all_topics ts = Ok items
       /\ map Some items = map work_item ts
       /\ length items = length xs.
Proof.
  cbv zeta. induction xs as [|x xs [IHp (items & IHf & IHm & IHl)]].
  - split; [reflexivity|]. exists []. repeat split.
  - rewrite !map_cons, preorder_forest_cons, IHp, flat_map_result_cons, IHf.
    destruct (product_topic_leaf topic_url topic_name x)
      as (item & -> & -> & ->).
    split; [reflexivity|].
    eexists. split; [reflexivity|]. split.
    + simpl. now rewrite IHm.
    + simpl. now rewrite IHl.
Qed.



Lemma join_snoc (sep : str) (parts : list str) (p : str) :
  parts <> [] -> join sep (parts ++ [p]) = join sep parts ++ sep ++ p.
Proof.
  induction parts as [|q parts IH]; intros Hne; [now elim Hne|].
  destruct parts as [|q' parts]; [reflexivity|].
  change (join sep ((q :: q' :: parts) ++ [p]))
    with (q ++ sep ++ join sep ((q' :: parts) ++ [p])).
  rewrite IH by discriminate.
  change (join sep (q :: q' :: parts))
    with (q ++ sep ++ join sep (q' :: parts)).
  now rewrite <- !app_assoc.
Qed.

End Structure.

